(** * Closed-form option pricing: Black-Scholes, generalised Black-Scholes and
    the Bjerksund-Stensland approximation of American options

    A shallow embedding of [fin_recipe_source.c], read twice.

    Exact arithmetic.  In the first reading a C [double] is a real number of
    [R]: [+], [-], [*] are exact, [exp], [log], [sqrt], [pow], [fabs] and
    [fmax] are the functions of the real line.  A real is always finite and
    never a NaN, so [is_sane] holds of every value that exists in this
    reading.  The operations of the source that leave the finite doubles on
    some argument (a division by zero, the logarithm of a non-positive number,
    the square root of a negative one, a power of a non-positive base) are
    partial here: they stop the computation with [ComputationFault] at the
    operation, where the source carries an infinity or a NaN forward to its
    next [is_sane] assertion.  Rounding, overflow and underflow do not exist
    in this reading: it says what the formulas are, and it agrees with the
    program where nothing overflows, underflows or cancels.

    Binary64.  In the second reading a [double] is a primitive binary64
    number, every operation is rounded once, and [is_sane] is the test of the
    source.  Module [Binary64] holds the start of the [b < r] branch of
    [BSAmericanCallApprox]; module [Binary64Program] holds every function of
    the file, with [exp], [log] and [pow] of [math.h], which are not part of
    the repository, as a parameter.  What is proved there holds whatever
    these three functions compute; evaluations at concrete arguments use the
    functions of module [ReferenceMath].

    Assertions.  The source checks its arguments with [assert]; both readings
    are the build in which assertions are active.  A failed assertion on an
    argument stops the computation with [InvalidParameter], naming the
    argument that was refused, a failed [is_sane] assertion on a computed
    value with [ComputationFault].

    The literals [0.0], [1.0] and [2.0] of the source are written [0], [1]
    and [2] in the first reading. *)

From Stdlib Require Import Reals Lra Psatz ZArith Bool.
From Stdlib Require Floats.

Open Scope R_scope.

(** ** Results of a checked computation *)

Inductive parameter : Set :=
| Price | Strike | Time | InterestRate | CostOfCarry | Volatility.

Inductive error : Set :=
| InvalidParameter (p : parameter)
| ComputationFault.

Inductive result (A : Type) : Type :=
| Ok (a : A)
| Err (e : error).

Arguments Ok {A} a.
Arguments Err {A} e.

Definition bind {A B : Type} (c : result A) (k : A -> result B) : result B :=
  match c with
  | Ok a => k a
  | Err e => Err e
  end.

Notation "x <- c ;; k" := (bind c (fun x => k))
  (at level 61, c at next level, right associativity).
Notation "c ;;; k" := (bind c (fun _ => k))
  (at level 61, right associativity).

(** [assert(c)] with the error reported when [c] is false. *)
Definition assert_ (c : bool) (e : error) : result unit :=
  if c then Ok tt else Err e.

(** ** Comparisons of the source, as booleans *)

Definition Rgeb (x y : R) : bool := if Rge_dec x y then true else false.
Definition Rleb (x y : R) : bool := if Rle_dec x y then true else false.
Definition Rgtb (x y : R) : bool := if Rgt_dec x y then true else false.
Definition Rltb (x y : R) : bool := if Rlt_dec x y then true else false.

(** [#define is_sane(a) (!_isnan((a)) && _finite((a)))].  Every real is finite
    and none is a NaN; the test on binary64 numbers is [Binary64.is_sane]. *)
Definition is_sane (a : R) : bool := true.

(** An [is_sane] assertion on a computed value. *)
Definition assert_sane (a : R) : result unit :=
  assert_ (is_sane a) ComputationFault.

(** ** The partial operations of [math.h] and the division *)

Definition fdiv (x y : R) : result R :=
  if Req_dec_T y 0 then Err ComputationFault else Ok (x / y).

Definition flog (x : R) : result R :=
  if Rlt_dec 0 x then Ok (ln x) else Err ComputationFault.

Definition fsqrt (x : R) : result R :=
  if Rle_dec 0 x then Ok (sqrt x) else Err ComputationFault.

(** [pow(x, y)]: every call of the source has a positive base when it is
    reached ([S] is a checked price, and [I] is used as a base only below
    the test [S >= I], where [0 < S < I]); it is the only case modelled. *)
Definition fpow (x y : R) : result R :=
  if Rlt_dec 0 x then Ok (Rpower x y) else Err ComputationFault.

(** ** Domain Validator: the admissible ranges *)

Definition VOLATILITY_MIN : R := 0.0000001.
Definition VOLATILITY_MAX : R := 100.99999.

Definition TIME_MIN : R := 1.0 / (253.0 * 24.0).
Definition TIME_MAX : R := 20.0.

Definition INTEREST_RATE_MIN : R := 0.0.
Definition INTEREST_RATE_MAX : R := 1000.0.

Definition PRICE_MIN : R := 0.000001.
Definition PRICE_MAX : R := 1000000000000.0.

Definition STRIKE_MIN : R := PRICE_MIN.
Definition STRIKE_MAX : R := PRICE_MAX.

Definition COST_OF_CARRY_MIN : R := - INTEREST_RATE_MAX.
Definition COST_OF_CARRY_MAX : R := INTEREST_RATE_MAX.

Definition assert_valid_price (S : R) : result unit :=
  assert_ (is_sane S && Rgeb S PRICE_MIN && Rleb S PRICE_MAX)
          (InvalidParameter Price).

Definition assert_valid_strike (X : R) : result unit :=
  assert_ (is_sane X && Rgeb X STRIKE_MIN && Rleb X STRIKE_MAX)
          (InvalidParameter Strike).

Definition assert_valid_time (T : R) : result unit :=
  assert_ (is_sane T && Rgeb T TIME_MIN && Rleb T TIME_MAX)
          (InvalidParameter Time).

Definition assert_valid_interest_rate (r : R) : result unit :=
  assert_ (is_sane r && Rgeb r INTEREST_RATE_MIN && Rleb r INTEREST_RATE_MAX)
          (InvalidParameter InterestRate).

Definition assert_valid_cost_of_carry (b : R) : result unit :=
  assert_ (is_sane b && Rgeb b COST_OF_CARRY_MIN && Rleb b COST_OF_CARRY_MAX)
          (InvalidParameter CostOfCarry).

Definition assert_valid_volatility (v : R) : result unit :=
  assert_ (is_sane v && Rgeb v VOLATILITY_MIN && Rleb v VOLATILITY_MAX)
          (InvalidParameter Volatility).

(** ** Math primitives *)

Definition one_div_sqrt2pi : R := 0.39894228040143270286.

Definition pow2 (n : R) : R := n * n.

Definition normdist (x : R) : R := one_div_sqrt2pi * exp (- ((x * x) / 2)).

Definition a1 : R := 0.31938153.
Definition a2 : R := - 0.356563782.
Definition a3 : R := 1.781477937.
Definition a4 : R := - 1.821255978.
Definition a5 : R := 1.330274429.

(** Cumulative normal distribution. *)
Definition cnd (x : R) : result R :=
  let L := Rabs x in
  K <- fdiv 1 (1 + (0.2316419 * L)) ;;
  let a12345k :=
      (a1 * K)
    + (a2 * K * K)
    + (a3 * K * K * K)
    + (a4 * K * K * K * K)
    + (a5 * K * K * K * K * K) in
  let result := 1 - one_div_sqrt2pi * exp (- pow2 L / 2) * a12345k in
  assert_sane x ;;;
  let result := if Rltb x 0 then 1 - result else result in
  assert_sane x ;;;
  Ok result.

(** ** European options *)

(** [vst = v * sqrt(T)], the first statement of [blackscholes], [gbs] and
    [phi]. *)
Definition vst (v T : R) : result R :=
  sqT <- fsqrt T ;;
  Ok (v * sqT).

(** A C [int] used as a truth value. *)
Definition truthy (f : Z) : bool := negb (Z.eqb f 0).

(** Black and Scholes (1973), stock options. *)
Definition blackscholes (fCall : Z) (S X T r v : R) : result R :=
  assert_valid_price S ;;;
  assert_valid_strike X ;;;
  assert_valid_time T ;;;
  assert_valid_interest_rate r ;;;
  assert_valid_volatility v ;;;
  assert_ (Rgeb r 0) (InvalidParameter InterestRate) ;;;
  assert_ (Rgtb v 0 && Rleb v 100.0) (InvalidParameter Volatility) ;;;
  vst <- vst v T ;;
  SX <- fdiv S X ;;
  lSX <- flog SX ;;
  d1 <- fdiv (lSX + (r + pow2 v / 2) * T) vst ;;
  let d2 := d1 - vst in
  if truthy fCall then
    c1 <- cnd d1 ;;
    c2 <- cnd d2 ;;
    Ok (S * c1 - X * exp (- r * T) * c2)
  else
    c2 <- cnd (- d2) ;;
    c1 <- cnd (- d1) ;;
    Ok (X * exp (- r * T) * c2 - S * c1).

(** Generalised Black-Scholes with cost of carry [b]. *)
Definition gbs (fCall : Z) (S X T r b v : R) : result R :=
  assert_valid_price S ;;;
  assert_valid_strike X ;;;
  assert_valid_time T ;;;
  assert_valid_interest_rate r ;;;
  assert_valid_cost_of_carry b ;;;
  assert_valid_volatility v ;;;
  vst <- vst v T ;;
  assert_sane vst ;;;
  SX <- fdiv S X ;;
  lSX <- flog SX ;;
  d1 <- fdiv (lSX + (b + pow2 v / 2) * T) vst ;;
  let d2 := d1 - vst in
  let ebrt := exp ((b - r) * T) in
  let ert := exp (- r * T) in
  result <-
    (if truthy fCall then
       c1 <- cnd d1 ;;
       c2 <- cnd d2 ;;
       Ok (S * ebrt * c1 - X * ert * c2)
     else
       c2 <- cnd (- d2) ;;
       c1 <- cnd (- d1) ;;
       Ok (X * ert * c2 - S * ebrt * c1)) ;;
  assert_sane result ;;;
  Ok result.

(** ** American options (Bjerksund and Stensland) *)

Definition phi (S T gamma_val H I r b v : R) : result R :=
  assert_valid_price S ;;;
  assert_valid_time T ;;;
  assert_valid_interest_rate r ;;;
  assert_valid_volatility v ;;;
  vst <- vst v T ;;
  let vv := v * v in
  let lambda := (- r + gamma_val * b + 0.5 * gamma_val * (gamma_val - 1) * vv) * T in
  SH <- fdiv S H ;;
  lSH <- flog SH ;;
  d <- fdiv (- (lSH + (b + (gamma_val - 0.5) * vv) * T)) vst ;;
  q <- fdiv (2 * b) vv ;;
  let kappa := q + (2 * gamma_val - 1) in
  pS <- fpow S gamma_val ;;
  c1 <- cnd d ;;
  IS <- fdiv I S ;;
  pIS <- fpow IS kappa ;;
  IS' <- fdiv I S ;;
  lIS <- flog IS' ;;
  w <- fdiv (2 * lIS) vst ;;
  c2 <- cnd (d - w) ;;
  Ok (exp lambda * pS * (c1 - pIS * c2)).

(** The locals of the [b < r] branch of [BSAmericanCallApprox], each with the
    name it has in the source, in the order the source computes them. *)

Definition Beta (r b v : R) : result R :=
  let vv := v * v in
  assert_sane vv ;;;
  q <- fdiv b vv ;;
  q' <- fdiv b vv ;;
  q2 <- fdiv (2 * r) vv ;;
  s <- fsqrt (pow2 (q' - 0.5) + q2) ;;
  let Beta := (0.5 - q) + s in
  assert_sane Beta ;;;
  Ok Beta.

Definition BInfinity (Beta X : R) : result R :=
  q <- fdiv Beta (Beta - 1) ;;
  let BInfinity := q * X in
  assert_sane BInfinity ;;;
  Ok BInfinity.

Definition B0 (X r b : R) : result R :=
  q <- fdiv r (r - b) ;;
  let B0 := Rmax X (q * X) in
  assert_sane B0 ;;;
  Ok B0.

Definition ht (T b v B0 BInfinity : R) : result R :=
  sqT <- fsqrt T ;;
  ht <- fdiv (- (b * T + 2 * v * sqT) * B0) (BInfinity - B0) ;;
  assert_sane ht ;;;
  Ok ht.

(** The trigger price [I], from [Beta], the strike and the market
    parameters. *)
Definition trigger_price (Beta X T r b v : R) : result R :=
  BInfinity <- BInfinity Beta X ;;
  B0 <- B0 X r b ;;
  ht <- ht T b v B0 BInfinity ;;
  let I := B0 + (BInfinity - B0) * (1 - exp ht) in
  assert_sane I ;;;
  Ok I.

(** The [else] branch of [BSAmericanCallApprox], taken when [b < r]. *)
Definition early_exercise_branch (S X T r b v : R) : result R :=
  Beta <- Beta r b v ;;
  I <- trigger_price Beta X T r b v ;;
  if Rgeb S I then
    Ok (S - X)
  else
    pI <- fpow I (- Beta) ;;
    let alpha := (I - X) * pI in
    pS <- fpow S Beta ;;
    p1 <- phi S T Beta I I r b v ;;
    p2 <- phi S T 1 I I r b v ;;
    p3 <- phi S T 1 X I r b v ;;
    p4 <- phi S T 0 I I r b v ;;
    p5 <- phi S T 0 X I r b v ;;
    Ok (alpha * pS - alpha * p1 + p2 - p3 - X * p4 + X * p5).

Definition BSAmericanCallApprox (S X T r b v : R) : result R :=
  assert_valid_price S ;;;
  assert_valid_strike X ;;;
  assert_valid_time T ;;;
  assert_valid_interest_rate r ;;;
  assert_valid_volatility v ;;;
  if Rgeb b r then
    (* Never optimal to exercise before maturity *)
    gbs 1 S X T r b v
  else
    early_exercise_branch S X T r b v.

Definition BSAmericanApprox (fCall : Z) (S X T r b v : R) : result R :=
  assert_valid_price S ;;;
  assert_valid_strike X ;;;
  assert_valid_time T ;;;
  assert_valid_interest_rate r ;;;
  assert_valid_volatility v ;;;
  result <-
    (if truthy fCall then
       BSAmericanCallApprox S X T r b v
     else
       (* the Bjerksund and Stensland put-call transformation *)
       BSAmericanCallApprox X S T (r - b) (- b) v) ;;
  assert_sane result ;;;
  Ok result.

(** ** The Domain Validator ranges as propositions *)

Definition valid_price (S : R) : Prop := PRICE_MIN <= S <= PRICE_MAX.
Definition valid_strike (X : R) : Prop := STRIKE_MIN <= X <= STRIKE_MAX.
Definition valid_time (T : R) : Prop := TIME_MIN <= T <= TIME_MAX.
Definition valid_interest_rate (r : R) : Prop :=
  INTEREST_RATE_MIN <= r <= INTEREST_RATE_MAX.
Definition valid_cost_of_carry (b : R) : Prop :=
  COST_OF_CARRY_MIN <= b <= COST_OF_CARRY_MAX.
Definition valid_volatility (v : R) : Prop :=
  VOLATILITY_MIN <= v <= VOLATILITY_MAX.

(** ** The value computed by [cnd], as a function of the real line *)

Definition cnd_K (L : R) : R := 1 / (1 + 0.2316419 * L).

Definition cnd_poly (K : R) : R :=
    (a1 * K)
  + (a2 * K * K)
  + (a3 * K * K * K)
  + (a4 * K * K * K * K)
  + (a5 * K * K * K * K * K).

(** The derivative of [cnd_poly]. *)
Definition cnd_poly' (K : R) : R :=
  a1 + 2 * a2 * K + 3 * a3 * (K * K) + 4 * a4 * (K * K * K)
  + 5 * a5 * (K * K * K * K).

(** What [cnd] subtracts from 1 on the non-negative side. *)
Definition cnd_tail (L : R) : R :=
  one_div_sqrt2pi * exp (- pow2 L / 2) * cnd_poly (cnd_K L).

Definition cnd_value (x : R) : R :=
  if Rltb x 0 then 1 - (1 - cnd_tail (Rabs x)) else 1 - cnd_tail (Rabs x).

(** The excess of [2 * cnd 0] over 1: about [1.05e-9]. *)
Definition cnd_zero_excess : R := 1 - 2 * (one_div_sqrt2pi * cnd_poly 1).

(** ** The values computed by the European pricers *)

(** [d1] with carry [c] ([r] in [blackscholes], [b] in [gbs]) and [d2]. *)
Definition d1_value (S X T c v : R) : R :=
  (ln (S / X) + (c + pow2 v / 2) * T) / (v * sqrt T).

Definition d2_value (S X T c v : R) : R :=
  d1_value S X T c v - v * sqrt T.

Definition blackscholes_value (fCall : Z) (S X T r v : R) : R :=
  let d1 := d1_value S X T r v in
  let d2 := d2_value S X T r v in
  if truthy fCall then
    S * cnd_value d1 - X * exp (- r * T) * cnd_value d2
  else
    X * exp (- r * T) * cnd_value (- d2) - S * cnd_value (- d1).

Definition gbs_value (fCall : Z) (S X T r b v : R) : R :=
  let d1 := d1_value S X T b v in
  let d2 := d2_value S X T b v in
  if truthy fCall then
    S * exp ((b - r) * T) * cnd_value d1 - X * exp (- r * T) * cnd_value d2
  else
    X * exp (- r * T) * cnd_value (- d2) - S * exp ((b - r) * T) * cnd_value (- d1).

(** The arguments every pricer checks, and those [gbs] and [blackscholes]
    check besides. *)
Definition valid_common (S X T r v : R) : Prop :=
  valid_price S /\ valid_strike X /\ valid_time T /\
  valid_interest_rate r /\ valid_volatility v.

Definition valid_gbs (S X T r b v : R) : Prop :=
  valid_common S X T r v /\ valid_cost_of_carry b.

Definition valid_blackscholes (S X T r v : R) : Prop :=
  valid_common S X T r v /\ v <= 100.

(** ** The values computed on the early-exercise branch *)

Definition Beta_value (r b v : R) : R :=
  (0.5 - b / (v * v)) + sqrt (pow2 (b / (v * v) - 0.5) + 2 * r / (v * v)).

Definition BInfinity_value (Beta X : R) : R := Beta / (Beta - 1) * X.

Definition B0_value (X r b : R) : R := Rmax X (r / (r - b) * X).

Definition ht_value (T b v B0 BInfinity : R) : R :=
  - (b * T + 2 * v * sqrt T) * B0 / (BInfinity - B0).

Definition trigger_value (X T r b v : R) : R :=
  let Beta := Beta_value r b v in
  let BInfinity := BInfinity_value Beta X in
  let B0 := B0_value X r b in
  B0 + (BInfinity - B0) * (1 - exp (ht_value T b v B0 BInfinity)).

(** ** The start of the early-exercise branch in binary64

    The argument assertions of [BSAmericanCallApprox], the test [b >= r] and
    the locals [vv], [Beta] and [BInfinity] with their [is_sane] assertions,
    over IEEE-754 binary64 with rounding to nearest (every operation rounded
    once, as a C compiler does without extended precision or contraction). *)

Module Binary64.
Import Stdlib.Floats.Floats.
#[local] Set Warnings "-inexact-float".
Local Open Scope float_scope.

Definition geb (x y : float) : bool := y <=? x.

Definition is_sane (a : float) : bool := negb (is_nan a) && is_finite a.

Definition VOLATILITY_MIN : float := 0.0000001.
Definition VOLATILITY_MAX : float := 100.99999.
Definition TIME_MIN : float := 1.0 / (253.0 * 24.0).
Definition TIME_MAX : float := 20.0.
Definition INTEREST_RATE_MIN : float := 0.0.
Definition INTEREST_RATE_MAX : float := 1000.0.
Definition PRICE_MIN : float := 0.000001.
Definition PRICE_MAX : float := 1000000000000.0.
Definition STRIKE_MIN : float := PRICE_MIN.
Definition STRIKE_MAX : float := PRICE_MAX.

Definition valid_price (S : float) : bool :=
  is_sane S && geb S PRICE_MIN && (S <=? PRICE_MAX).
Definition valid_strike (X : float) : bool :=
  is_sane X && geb X STRIKE_MIN && (X <=? STRIKE_MAX).
Definition valid_time (T : float) : bool :=
  is_sane T && geb T TIME_MIN && (T <=? TIME_MAX).
Definition valid_interest_rate (r : float) : bool :=
  is_sane r && geb r INTEREST_RATE_MIN && (r <=? INTEREST_RATE_MAX).
Definition valid_volatility (v : float) : bool :=
  is_sane v && geb v VOLATILITY_MIN && (v <=? VOLATILITY_MAX).

Definition pow2 (n : float) : float := n * n.

Definition Beta (r b v : float) : float :=
  let vv := v * v in
  (0.5 - b / vv) + sqrt (pow2 (b / vv - 0.5) + 2.0 * r / vv).

Definition BInfinity (Beta X : float) : float := Beta / (Beta - 1.0) * X.

(** Where the execution of [BSAmericanCallApprox] stands after the
    assertion on [BInfinity]. *)
Inductive progress : Set :=
| ArgumentRefused (p : parameter)
| DelegatedToGbs
| NotSane_vv
| NotSane_Beta
| NotSane_BInfinity
| Continues (Beta BInfinity : float).

Definition BSAmericanCallApprox_to_BInfinity (S X T r b v : float) : progress :=
  if negb (valid_price S) then ArgumentRefused Price
  else if negb (valid_strike X) then ArgumentRefused Strike
  else if negb (valid_time T) then ArgumentRefused Time
  else if negb (valid_interest_rate r) then ArgumentRefused InterestRate
  else if negb (valid_volatility v) then ArgumentRefused Volatility
  else if geb b r then DelegatedToGbs
  else
    let vv := v * v in
    if negb (is_sane vv) then NotSane_vv
    else
      let Beta := Beta r b v in
      if negb (is_sane Beta) then NotSane_Beta
      else
        let BInfinity := BInfinity Beta X in
        if negb (is_sane BInfinity) then NotSane_BInfinity
        else Continues Beta BInfinity.

End Binary64.

(** ** The whole program in binary64

    Every function of [fin_recipe_source.c] over IEEE-754 binary64 with
    rounding to nearest, each operation rounded once.  [is_sane], the
    argument ranges, [pow2], [Beta] and [BInfinity] are those of module
    [Binary64].  An assertion that fails stops the computation: an infinity
    or a NaN passes through the arithmetic as IEEE 754 says and is caught, or
    not, where the source has an [is_sane] assertion.  [sqrt] is the
    correctly rounded root, [fabs] the absolute value, [fmax] returns the
    other argument when one is a NaN. *)

Module Binary64Program.
Import Stdlib.Floats.Floats.
#[local] Set Warnings "-inexact-float".
Local Open Scope float_scope.
Import Binary64.

Definition COST_OF_CARRY_MIN : float := - INTEREST_RATE_MAX.
Definition COST_OF_CARRY_MAX : float := INTEREST_RATE_MAX.

Definition valid_cost_of_carry (b : float) : bool :=
  is_sane b && geb b COST_OF_CARRY_MIN && (b <=? COST_OF_CARRY_MAX).

Definition valid_common (S X T r v : float) : bool :=
  valid_price S && valid_strike X && valid_time T && valid_interest_rate r
  && valid_volatility v.

Definition valid_gbs (S X T r b v : float) : bool :=
  valid_price S && valid_strike X && valid_time T && valid_interest_rate r
  && valid_cost_of_carry b && valid_volatility v.

(** The arguments on which no argument assertion of [BSAmericanCallApprox]
    fails: the cost of carry is checked by [gbs] only, when [b >= r]. *)
Definition valid_american_call (S X T r b v : float) : bool :=
  valid_common S X T r v && (negb (geb b r) || valid_cost_of_carry b).

(** An outcome that is not the refusal of an argument: a value, or a failed
    [is_sane] assertion. *)
Definition never_refuses {A : Type} (o : result A) : Prop :=
  forall p, o <> Err (InvalidParameter p).

Definition assert_sane (a : float) : result unit :=
  assert_ (is_sane a) ComputationFault.
Definition assert_valid_price (S : float) : result unit :=
  assert_ (valid_price S) (InvalidParameter Price).
Definition assert_valid_strike (X : float) : result unit :=
  assert_ (valid_strike X) (InvalidParameter Strike).
Definition assert_valid_time (T : float) : result unit :=
  assert_ (valid_time T) (InvalidParameter Time).
Definition assert_valid_interest_rate (r : float) : result unit :=
  assert_ (valid_interest_rate r) (InvalidParameter InterestRate).
Definition assert_valid_cost_of_carry (b : float) : result unit :=
  assert_ (valid_cost_of_carry b) (InvalidParameter CostOfCarry).
Definition assert_valid_volatility (v : float) : result unit :=
  assert_ (valid_volatility v) (InvalidParameter Volatility).

Definition one_div_sqrt2pi : float := 0.39894228040143270286.

Definition a1 : float := 0.31938153.
Definition a2 : float := -0.356563782.
Definition a3 : float := 1.781477937.
Definition a4 : float := -1.821255978.
Definition a5 : float := 1.330274429.

Definition fabs (x : float) : float := abs x.

Definition fmax (x y : float) : float :=
  if is_nan x then y else if is_nan y then x else if x <? y then y else x.

(** [exp], [log] and [pow] come from [math.h], which the repository does not
    hold: the program takes them as a parameter. *)
Record math_h : Set := {
  m_exp : float -> float;
  m_log : float -> float;
  m_pow : float -> float -> float
}.

Section Libm.

Variable libm : math_h.

Local Abbreviation exp := (m_exp libm).
Local Abbreviation log := (m_log libm).
Local Abbreviation pow := (m_pow libm).

Definition normdist (x : float) : float :=
  one_div_sqrt2pi * exp (- ((x * x) / 2.0)).

Definition cnd (x : float) : result float :=
  let L := fabs x in
  let K := 1.0 / (1.0 + (0.2316419 * L)) in
  let a12345k :=
    (a1 * K) + (a2 * K * K) + (a3 * K * K * K)
    + (a4 * K * K * K * K) + (a5 * K * K * K * K * K) in
  let result := 1.0 - one_div_sqrt2pi * exp (- pow2 L / 2.0) * a12345k in
  assert_sane x ;;;
  let result := if x <? 0.0 then 1.0 - result else result in
  assert_sane x ;;;
  Ok result.

Definition blackscholes (fCall : Z) (S X T r v : float) : result float :=
  assert_valid_price S ;;;
  assert_valid_strike X ;;;
  assert_valid_time T ;;;
  assert_valid_interest_rate r ;;;
  assert_valid_volatility v ;;;
  assert_ (geb r 0.0) (InvalidParameter InterestRate) ;;;
  assert_ ((0.0 <? v) && (v <=? 100.0)) (InvalidParameter Volatility) ;;;
  let vst := v * sqrt T in
  let d1 := (log (S / X) + (r + pow2 v / 2.0) * T) / vst in
  let d2 := d1 - vst in
  if truthy fCall then
    c1 <- cnd d1 ;;
    c2 <- cnd d2 ;;
    Ok (S * c1 - X * exp (- r * T) * c2)
  else
    c2 <- cnd (- d2) ;;
    c1 <- cnd (- d1) ;;
    Ok (X * exp (- r * T) * c2 - S * c1).

Definition gbs (fCall : Z) (S X T r b v : float) : result float :=
  assert_valid_price S ;;;
  assert_valid_strike X ;;;
  assert_valid_time T ;;;
  assert_valid_interest_rate r ;;;
  assert_valid_cost_of_carry b ;;;
  assert_valid_volatility v ;;;
  let vst := v * sqrt T in
  assert_sane vst ;;;
  let d1 := (log (S / X) + (b + pow2 v / 2.0) * T) / vst in
  let d2 := d1 - vst in
  let ebrt := exp ((b - r) * T) in
  let ert := exp (- r * T) in
  result <-
    (if truthy fCall then
       c1 <- cnd d1 ;;
       c2 <- cnd d2 ;;
       Ok (S * ebrt * c1 - X * ert * c2)
     else
       c2 <- cnd (- d2) ;;
       c1 <- cnd (- d1) ;;
       Ok (X * ert * c2 - S * ebrt * c1)) ;;
  assert_sane result ;;;
  Ok result.

Definition phi (S T gamma_val H I r b v : float) : result float :=
  assert_valid_price S ;;;
  assert_valid_time T ;;;
  assert_valid_interest_rate r ;;;
  assert_valid_volatility v ;;;
  let vst := v * sqrt T in
  let vv := v * v in
  let lambda :=
    (- r + gamma_val * b + 0.5 * gamma_val * (gamma_val - 1.0) * vv) * T in
  let d := - (log (S / H) + (b + (gamma_val - 0.5) * vv) * T) / vst in
  let kappa := 2.0 * b / vv + (2.0 * gamma_val - 1.0) in
  c1 <- cnd d ;;
  c2 <- cnd (d - 2.0 * log (I / S) / vst) ;;
  Ok (exp lambda * pow S gamma_val * (c1 - pow (I / S) kappa * c2)).

Definition early_exercise_branch (S X T r b v : float) : result float :=
  let vv := v * v in
  assert_sane vv ;;;
  let Beta := Beta r b v in
  assert_sane Beta ;;;
  let BInfinity := BInfinity Beta X in
  assert_sane BInfinity ;;;
  let B0 := fmax X (r / (r - b) * X) in
  assert_sane B0 ;;;
  let ht := - (b * T + 2.0 * v * sqrt T) * B0 / (BInfinity - B0) in
  assert_sane ht ;;;
  let I := B0 + (BInfinity - B0) * (1.0 - exp ht) in
  assert_sane I ;;;
  if geb S I then Ok (S - X)
  else
    let alpha := (I - X) * pow I (- Beta) in
    p1 <- phi S T Beta I I r b v ;;
    p2 <- phi S T 1.0 I I r b v ;;
    p3 <- phi S T 1.0 X I r b v ;;
    p4 <- phi S T 0.0 I I r b v ;;
    p5 <- phi S T 0.0 X I r b v ;;
    Ok (alpha * pow S Beta - alpha * p1 + p2 - p3 - X * p4 + X * p5).

Definition BSAmericanCallApprox (S X T r b v : float) : result float :=
  assert_valid_price S ;;;
  assert_valid_strike X ;;;
  assert_valid_time T ;;;
  assert_valid_interest_rate r ;;;
  assert_valid_volatility v ;;;
  if geb b r then gbs 1 S X T r b v
  else early_exercise_branch S X T r b v.

Definition BSAmericanApprox (fCall : Z) (S X T r b v : float) : result float :=
  assert_valid_price S ;;;
  assert_valid_strike X ;;;
  assert_valid_time T ;;;
  assert_valid_interest_rate r ;;;
  assert_valid_volatility v ;;;
  result <-
    (if truthy fCall then BSAmericanCallApprox S X T r b v
     else BSAmericanCallApprox X S T (r - b) (- b) v) ;;
  assert_sane result ;;;
  Ok result.

End Libm.
End Binary64Program.


(** ** Reference [exp], [log] and [pow]

    One instance of [math_h], to evaluate the program at concrete arguments.
    [exp] reduces its argument by a multiple of [ln 2] to [|r| <= ln 2 / 2]
    and sums the Taylor polynomial of degree 13; [log] reduces the mantissa to
    the interval from [sqrt (1/2)] to [sqrt 2] and sums the series of the
    inverse hyperbolic tangent; [pow x y] is [exp (y * log x)], with the
    C99 cases [pow (x, 0) = 1] and [pow (1, y) = 1], and a NaN for a negative
    base.  These are not the functions of a particular platform and they are
    not correctly rounded: the last digits of a finite result can differ from
    the platform's.  The evaluations of this file depend on them through
    overflow to infinity and underflow to zero where the exact value leaves
    the binary64 range, through [exp 0 = 1] and [log 1 = 0], and through
    finite results to a few digits only. *)

Module ReferenceMath.
Import Stdlib.Floats.Floats.
#[local] Set Warnings "-inexact-float".
Local Open Scope float_scope.

Definition ln2_hi : float := 0x1.62e42fee00000p-1.
Definition ln2_lo : float := 0x1.a39ef35793c76p-33.
Definition inv_ln2 : float := 0x1.71547652b82fep+0.
Definition round_magic : float := 0x1.8p+52.

(** The integer nearest to [x], as a binary64 number, for [|x| < 2^51]. *)
Definition nearest (x : float) : float := (x + round_magic) - round_magic.

(** The integer value of a binary64 number that is an integer. *)
Definition to_Z (x : float) : Z :=
  match Prim2SF x with
  | S754_finite s m e =>
      let a := Z.shiftl (Zpos m) e in
      if s then (- a)%Z else a
  | _ => 0%Z
  end.

Definition exp_poly (r : float) : float :=
  1 + r * (1 + r * (0x1p-1 + r * (0x1.5555555555555p-3 + r * (0x1.5555555555555p-5
    + r * (0x1.1111111111111p-7 + r * (0x1.6c16c16c16c17p-10 + r * (0x1.a01a01a01a01ap-13
    + r * (0x1.a01a01a01a01ap-16 + r * (0x1.71de3a556c734p-19 + r * (0x1.27e4fb7789f5cp-22
    + r * (0x1.ae64567f544e4p-26 + r * (0x1.1eed8eff8d898p-29 + r * 0x1.6124613a86d09p-33)))))))))))).

Definition exp (x : float) : float :=
  if is_nan x then nan
  else if 710 <? x then infinity
  else if x <? -746 then 0
  else
    let k := nearest (x * inv_ln2) in
    let r := (x - k * ln2_hi) - k * ln2_lo in
    Z.ldexp (exp_poly r) (to_Z k).

Definition sqrt_half : float := 0x1.6a09e667f3bcdp-1.

Definition log_series (z : float) : float :=
  1 + z * (0x1.5555555555555p-2 + z * (0x1.999999999999ap-3 + z * (0x1.2492492492492p-3
    + z * (0x1.c71c71c71c71cp-4 + z * (0x1.745d1745d1746p-4 + z * (0x1.3b13b13b13b14p-4
    + z * (0x1.1111111111111p-4 + z * (0x1.e1e1e1e1e1e1ep-5 + z * (0x1.af286bca1af28p-5
    + z * 0x1.8618618618618p-5))))))))).

Definition log (x : float) : float :=
  if is_nan x then nan
  else if x <? 0 then nan
  else if x =? 0 then neg_infinity
  else if is_infinity x then infinity
  else
    let (m0, e0) := Z.frexp x in
    let (m, e) := if m0 <? sqrt_half then (2 * m0, (e0 - 1)%Z) else (m0, e0) in
    let f := m - 1 in
    let s := f / (2 + f) in
    let ef :=
      if (e <? 0)%Z then - of_uint63 (Uint63.of_Z (- e))
      else of_uint63 (Uint63.of_Z e) in
    ef * ln2_hi + (2 * s * log_series (s * s) + ef * ln2_lo).

Definition pow (x y : float) : float :=
  if y =? 0 then 1
  else if x =? 1 then 1
  else if is_nan x || is_nan y then nan
  else if x <? 0 then nan
  else exp (y * log x).

Definition reference : Binary64Program.math_h :=
  {| Binary64Program.m_exp := exp;
     Binary64Program.m_log := log;
     Binary64Program.m_pow := pow |}.

End ReferenceMath.

(** * Properties *)

(** ** The comparisons and the checked operations *)

Lemma Rgeb_true x y : x >= y -> Rgeb x y = true.
Proof. intros H; unfold Rgeb; destruct (Rge_dec x y); [reflexivity | contradiction]. Qed.

Lemma Rgeb_false x y : x < y -> Rgeb x y = false.
Proof. intros H; unfold Rgeb; destruct (Rge_dec x y); [lra | reflexivity]. Qed.

Lemma Rleb_true x y : x <= y -> Rleb x y = true.
Proof. intros H; unfold Rleb; destruct (Rle_dec x y); [reflexivity | contradiction]. Qed.

Lemma Rleb_false x y : y < x -> Rleb x y = false.
Proof. intros H; unfold Rleb; destruct (Rle_dec x y); [lra | reflexivity]. Qed.

Lemma Rgtb_true x y : x > y -> Rgtb x y = true.
Proof. intros H; unfold Rgtb; destruct (Rgt_dec x y); [reflexivity | contradiction]. Qed.

Lemma Rltb_true x y : x < y -> Rltb x y = true.
Proof. intros H; unfold Rltb; destruct (Rlt_dec x y); [reflexivity | contradiction]. Qed.

Lemma Rltb_false x y : y <= x -> Rltb x y = false.
Proof. intros H; unfold Rltb; destruct (Rlt_dec x y); [lra | reflexivity]. Qed.

Lemma fdiv_ok x y : y <> 0 -> fdiv x y = Ok (x / y).
Proof. intros H; unfold fdiv; destruct (Req_dec_T y 0); [contradiction | reflexivity]. Qed.

Lemma fdiv_zero x : fdiv x 0 = Err ComputationFault.
Proof. unfold fdiv; destruct (Req_dec_T 0 0); [reflexivity | contradiction]. Qed.

Lemma flog_ok x : 0 < x -> flog x = Ok (ln x).
Proof. intros H; unfold flog; destruct (Rlt_dec 0 x); [reflexivity | contradiction]. Qed.

Lemma fsqrt_ok x : 0 <= x -> fsqrt x = Ok (sqrt x).
Proof. intros H; unfold fsqrt; destruct (Rle_dec 0 x); [reflexivity | contradiction]. Qed.

Lemma fpow_ok x y : 0 < x -> fpow x y = Ok (Rpower x y).
Proof. intros H; unfold fpow; destruct (Rlt_dec 0 x); [reflexivity | contradiction]. Qed.

(** ** The validator's assertions *)

Lemma assert_range_ok lo hi x e :
  lo <= x <= hi -> assert_ (is_sane x && Rgeb x lo && Rleb x hi) e = Ok tt.
Proof.
  intros [H1 H2]. rewrite Rgeb_true by lra. rewrite Rleb_true by lra. reflexivity.
Qed.

Lemma assert_range_err lo hi x e :
  ~ lo <= x <= hi -> assert_ (is_sane x && Rgeb x lo && Rleb x hi) e = Err e.
Proof.
  intros H. destruct (Rlt_dec x lo).
  - rewrite Rgeb_false by lra. reflexivity.
  - rewrite Rgeb_true by lra. rewrite Rleb_false by lra. reflexivity.
Qed.

Lemma assert_valid_price_ok S : valid_price S -> assert_valid_price S = Ok tt.
Proof. apply assert_range_ok. Qed.

Lemma assert_valid_strike_ok X : valid_strike X -> assert_valid_strike X = Ok tt.
Proof. apply assert_range_ok. Qed.

Lemma assert_valid_time_ok T : valid_time T -> assert_valid_time T = Ok tt.
Proof. apply assert_range_ok. Qed.

Lemma assert_valid_time_err T :
  ~ valid_time T -> assert_valid_time T = Err (InvalidParameter Time).
Proof. apply assert_range_err. Qed.

Lemma assert_valid_interest_rate_ok r :
  valid_interest_rate r -> assert_valid_interest_rate r = Ok tt.
Proof. apply assert_range_ok. Qed.

Lemma assert_valid_interest_rate_err r :
  ~ valid_interest_rate r ->
  assert_valid_interest_rate r = Err (InvalidParameter InterestRate).
Proof. apply assert_range_err. Qed.

Lemma assert_valid_cost_of_carry_ok b :
  valid_cost_of_carry b -> assert_valid_cost_of_carry b = Ok tt.
Proof. apply assert_range_ok. Qed.

Lemma assert_valid_volatility_ok v :
  valid_volatility v -> assert_valid_volatility v = Ok tt.
Proof. apply assert_range_ok. Qed.

Lemma valid_strike_price X : valid_strike X <-> valid_price X.
Proof. reflexivity. Qed.

Lemma valid_price_pos S : valid_price S -> 0 < S.
Proof. unfold valid_price, PRICE_MIN; lra. Qed.

Lemma valid_time_pos T : valid_time T -> 0 < T.
Proof. unfold valid_time, TIME_MIN; lra. Qed.

Lemma valid_volatility_pos v : valid_volatility v -> 0 < v.
Proof. unfold valid_volatility, VOLATILITY_MIN; lra. Qed.

Lemma valid_interest_rate_nonneg r : valid_interest_rate r -> 0 <= r.
Proof. unfold valid_interest_rate, INTEREST_RATE_MIN; lra. Qed.

(** ** The cumulative normal distribution *)

Lemma cnd_denominator_pos x : 1 <= 1 + 0.2316419 * Rabs x.
Proof. pose proof (Rabs_pos x). nra. Qed.

Lemma cnd_eq x : cnd x = Ok (cnd_value x).
Proof.
  unfold cnd. pose proof (cnd_denominator_pos x).
  rewrite fdiv_ok by lra. reflexivity.
Qed.

Lemma cnd_K_range L : 0 <= L -> 0 < cnd_K L <= 1.
Proof.
  intros HL. unfold cnd_K.
  assert (Hd : 1 <= 1 + 0.2316419 * L) by nra.
  split.
  - apply Rdiv_lt_0_compat; lra.
  - unfold Rdiv. rewrite Rmult_1_l. rewrite <- Rinv_1.
    apply Rinv_le_contravar; lra.
Qed.

Lemma cnd_K_decr L L' : 0 <= L -> L <= L' -> cnd_K L' <= cnd_K L.
Proof.
  intros HL HLL'. unfold cnd_K, Rdiv. rewrite !Rmult_1_l.
  apply Rinv_le_contravar; nra.
Qed.

Lemma cnd_K_0 : cnd_K 0 = 1.
Proof. unfold cnd_K. rewrite Rmult_0_r, Rplus_0_r. lra. Qed.

Lemma cnd_poly'_pos t : 0 < cnd_poly' t.
Proof.
  unfold cnd_poly', a1, a2, a3, a4, a5.
  assert (H1 : 0 < 0.31938153 - 0.713127564 * t + 1 * (t * t)) by nra.
  assert (H2 : 0 <= (t * t) * (4.344433811 - 7.285023912 * t + 6.651372145 * (t * t))).
  { apply Rmult_le_pos; nra. }
  nra.
Qed.

Lemma cnd_poly_derivable t : derivable_pt_lim cnd_poly t (cnd_poly' t).
Proof.
  pose (m := fun (c : R) (n : nat) => mult_real_fct c (fun y => y ^ n)).
  assert (Hm : forall c n x, derivable_pt_lim (m c n) x (c * (INR n * x ^ pred n))).
  { intros c n x. apply derivable_pt_lim_scal, derivable_pt_lim_pow. }
  apply derivable_pt_lim_ext
    with (f := (m a1 1%nat + m a2 2%nat + m a3 3%nat + m a4 4%nat + m a5 5%nat)%F).
  - intros z. unfold m, plus_fct, mult_real_fct, cnd_poly. ring.
  - replace (cnd_poly' t)
      with (a1 * (INR 1 * t ^ pred 1) + a2 * (INR 2 * t ^ pred 2)
            + a3 * (INR 3 * t ^ pred 3) + a4 * (INR 4 * t ^ pred 4)
            + a5 * (INR 5 * t ^ pred 5))
      by (unfold cnd_poly'; simpl; ring).
    repeat apply derivable_pt_lim_plus; apply Hm.
Qed.

Lemma cnd_poly_incr k k' : k < k' -> cnd_poly k < cnd_poly k'.
Proof.
  intros Hk.
  destruct (MVT_cor2 cnd_poly cnd_poly' k k' Hk) as [c [Hc _]].
  { intros; apply cnd_poly_derivable. }
  pose proof (cnd_poly'_pos c). nra.
Qed.

Lemma cnd_poly_mono k k' : k <= k' -> cnd_poly k <= cnd_poly k'.
Proof.
  intros [Hk | ->]; [left; now apply cnd_poly_incr | right; reflexivity].
Qed.

Lemma cnd_poly_0 : cnd_poly 0 = 0.
Proof. unfold cnd_poly; ring. Qed.

Lemma cnd_poly_pos k : 0 < k -> 0 < cnd_poly k.
Proof. intros Hk. rewrite <- cnd_poly_0. now apply cnd_poly_incr. Qed.

Lemma cnd_poly_1 : cnd_poly 1 = 1.253314136.
Proof. unfold cnd_poly, a1, a2, a3, a4, a5. lra. Qed.

(** At the origin the tail is a little under one half. *)
Lemma cnd_tail_0 : cnd_tail 0 = one_div_sqrt2pi * cnd_poly 1.
Proof.
  unfold cnd_tail, pow2. rewrite cnd_K_0.
  replace (- (0 * 0) / 2) with 0 by lra. rewrite exp_0. ring.
Qed.

Lemma cnd_tail_0_bounds : 0.4999999994 < cnd_tail 0 < 0.4999999995.
Proof. rewrite cnd_tail_0, cnd_poly_1. unfold one_div_sqrt2pi. lra. Qed.

Lemma cnd_zero_excess_bounds : 1.04e-9 < cnd_zero_excess < 1.05e-9.
Proof. unfold cnd_zero_excess. rewrite cnd_poly_1. unfold one_div_sqrt2pi. lra. Qed.

Lemma exp_gauss_decr L L' : 0 <= L -> L <= L' -> exp (- pow2 L' / 2) <= exp (- pow2 L / 2).
Proof.
  intros HL HLL'. unfold pow2.
  assert (H : - (L' * L') / 2 <= - (L * L) / 2) by nra.
  destruct H as [H | H]; [left; now apply exp_increasing | right; now rewrite H].
Qed.

Lemma cnd_tail_pos L : 0 <= L -> 0 < cnd_tail L.
Proof.
  intros HL. unfold cnd_tail.
  assert (0 < one_div_sqrt2pi) by (unfold one_div_sqrt2pi; lra).
  pose proof (exp_pos (- pow2 L / 2)).
  pose proof (cnd_poly_pos (cnd_K L) (proj1 (cnd_K_range L HL))).
  apply Rmult_lt_0_compat; [apply Rmult_lt_0_compat |]; assumption.
Qed.

Lemma cnd_tail_decr L L' : 0 <= L -> L <= L' -> cnd_tail L' <= cnd_tail L.
Proof.
  intros HL HLL'. unfold cnd_tail.
  assert (0 < one_div_sqrt2pi) by (unfold one_div_sqrt2pi; lra).
  pose proof (exp_gauss_decr L L' HL HLL').
  pose proof (exp_pos (- pow2 L' / 2)).
  pose proof (cnd_poly_mono _ _ (cnd_K_decr L L' HL HLL')).
  assert (HL' : 0 <= L') by lra.
  pose proof (cnd_poly_pos (cnd_K L') (proj1 (cnd_K_range L' HL'))).
  rewrite !Rmult_assoc. apply Rmult_le_compat_l; [lra |].
  apply Rmult_le_compat; lra.
Qed.

Lemma cnd_tail_below_half L : 0 <= L -> cnd_tail L < 0.4999999995.
Proof.
  intros HL. pose proof (cnd_tail_decr 0 L (Rle_refl 0) HL).
  pose proof cnd_tail_0_bounds. lra.
Qed.

Lemma cnd_value_nonneg x : 0 <= x -> cnd_value x = 1 - cnd_tail x.
Proof.
  intros Hx. unfold cnd_value. rewrite Rltb_false by assumption.
  now rewrite Rabs_right by lra.
Qed.

Lemma cnd_value_neg x : x < 0 -> cnd_value x = cnd_tail (- x).
Proof.
  intros Hx. unfold cnd_value. rewrite Rltb_true by assumption.
  rewrite Rabs_left by assumption. ring.
Qed.

Lemma cnd_value_0 : cnd_value 0 = 1 - one_div_sqrt2pi * cnd_poly 1.
Proof. rewrite cnd_value_nonneg by lra. now rewrite cnd_tail_0. Qed.

Lemma cnd_value_bounds x : 0 < cnd_value x < 1.
Proof.
  destruct (Rlt_dec x 0) as [Hx | Hx].
  - rewrite cnd_value_neg by assumption.
    assert (H : 0 <= - x) by lra.
    pose proof (cnd_tail_pos _ H). pose proof (cnd_tail_below_half _ H). lra.
  - assert (H : 0 <= x) by lra. rewrite cnd_value_nonneg by assumption.
    pose proof (cnd_tail_pos _ H). pose proof (cnd_tail_below_half _ H). lra.
Qed.

Lemma cnd_value_mono x y : x <= y -> cnd_value x <= cnd_value y.
Proof.
  intros Hxy.
  destruct (Rlt_dec x 0) as [Hx | Hx]; destruct (Rlt_dec y 0) as [Hy | Hy].
  - rewrite !cnd_value_neg by assumption. apply cnd_tail_decr; lra.
  - rewrite cnd_value_neg by assumption. rewrite cnd_value_nonneg by lra.
    assert (H : 0 <= - x) by lra. assert (H' : 0 <= y) by lra.
    pose proof (cnd_tail_below_half _ H). pose proof (cnd_tail_below_half _ H'). lra.
  - lra.
  - rewrite !cnd_value_nonneg by lra.
    assert (H : 0 <= x) by lra. pose proof (cnd_tail_decr x y H Hxy). lra.
Qed.

(** Away from the origin the two sides of [cnd] mirror each other. *)
Lemma cnd_value_opp x : x <> 0 -> cnd_value x + cnd_value (- x) = 1.
Proof.
  intros Hx. destruct (Rlt_dec x 0) as [Hn | Hp].
  - rewrite cnd_value_neg by assumption. rewrite cnd_value_nonneg by lra. ring.
  - rewrite (cnd_value_neg (- x)) by lra. rewrite cnd_value_nonneg by lra.
    rewrite Ropp_involutive. ring.
Qed.

(** At the origin both sides take the non-negative branch. *)
Lemma cnd_value_opp_0 : cnd_value 0 + cnd_value (- 0) = 1 + cnd_zero_excess.
Proof.
  rewrite Ropp_0, cnd_value_0. unfold cnd_zero_excess. ring.
Qed.

(** The sum of the two sides, everywhere. *)
Lemma cnd_value_opp_cases x :
  cnd_value x + cnd_value (- x) = 1 + (if Req_dec_T x 0 then cnd_zero_excess else 0).
Proof.
  destruct (Req_dec_T x 0) as [-> | Hx].
  - apply cnd_value_opp_0.
  - rewrite cnd_value_opp by assumption. ring.
Qed.

(** ** The European pricers on valid arguments *)

Ltac pass_checks :=
  repeat first
    [ rewrite assert_valid_price_ok by assumption
    | rewrite assert_valid_strike_ok by assumption
    | rewrite assert_valid_time_ok by assumption
    | rewrite assert_valid_interest_rate_ok by assumption
    | rewrite assert_valid_cost_of_carry_ok by assumption
    | rewrite assert_valid_volatility_ok by assumption ];
  cbn [bind].

Lemma vst_pos v T : 0 < v -> 0 < T -> 0 < v * sqrt T.
Proof. intros Hv HT. apply Rmult_lt_0_compat; [assumption | now apply sqrt_lt_R0]. Qed.

Lemma vst_ok v T : 0 <= T -> vst v T = Ok (v * sqrt T).
Proof. intros HT. unfold vst. now rewrite fsqrt_ok. Qed.

Section European.
Variables S X T r v : R.
Hypothesis HS : valid_price S.
Hypothesis HX : valid_strike X.
Hypothesis HT : valid_time T.
Hypothesis Hr : valid_interest_rate r.
Hypothesis Hv : valid_volatility v.

Let S_pos : 0 < S := valid_price_pos S HS.
Let X_pos : 0 < X := valid_price_pos X HX.
Let T_pos : 0 < T := valid_time_pos T HT.
Let v_pos : 0 < v := valid_volatility_pos v Hv.

Lemma ratio_pos : 0 < S / X.
Proof. now apply Rdiv_lt_0_compat. Qed.

Lemma blackscholes_ok fCall :
  v <= 100 ->
  blackscholes fCall S X T r v = Ok (blackscholes_value fCall S X T r v).
Proof.
  intros Hv100.
  pose proof (vst_pos v T v_pos T_pos). pose proof ratio_pos.
  pose proof (valid_interest_rate_nonneg r Hr).
  unfold blackscholes, blackscholes_value, d2_value, d1_value. pass_checks.
  rewrite Rgeb_true by lra. rewrite Rgtb_true by lra. rewrite Rleb_true by lra.
  cbn [andb assert_ bind].
  rewrite vst_ok by lra. cbn [bind].
  rewrite fdiv_ok by lra. cbn [bind].
  rewrite flog_ok by assumption. cbn [bind].
  rewrite fdiv_ok by lra. cbn [bind].
  destruct (truthy fCall); rewrite !cnd_eq; reflexivity.
Qed.

Lemma gbs_ok fCall b :
  valid_cost_of_carry b ->
  gbs fCall S X T r b v = Ok (gbs_value fCall S X T r b v).
Proof.
  intros Hb.
  pose proof (vst_pos v T v_pos T_pos). pose proof ratio_pos.
  unfold gbs, gbs_value, d2_value, d1_value. pass_checks.
  rewrite vst_ok by lra. cbn [bind assert_sane is_sane assert_].
  rewrite fdiv_ok by lra. cbn [bind].
  rewrite flog_ok by assumption. cbn [bind].
  rewrite fdiv_ok by lra. cbn [bind].
  destruct (truthy fCall); rewrite !cnd_eq; reflexivity.
Qed.

End European.

(** ** Rejection of arguments outside the ranges *)

Lemma zero_time_invalid : ~ valid_time 0.
Proof. unfold valid_time, TIME_MIN. lra. Qed.

(** C7. [blackscholes] called with [T = 0] stops at an argument assertion, and
    never reaches the formula: whatever the other arguments are, the outcome is
    an [InvalidParameter] error (neither a price nor a computation fault); and
    when the price and the strike, which are checked before the time, are in
    range, the argument named by the error is the time. *)
Theorem blackscholes_rejects_zero_time (fCall : Z) (S X r v : R) :
  (exists p, blackscholes fCall S X 0 r v = Err (InvalidParameter p)) /\
  (valid_price S -> valid_strike X ->
   blackscholes fCall S X 0 r v = Err (InvalidParameter Time)).
Proof.
  assert (Ht : assert_valid_time 0 = Err (InvalidParameter Time))
    by (apply assert_valid_time_err, zero_time_invalid).
  split.
  - unfold blackscholes.
    unfold assert_valid_price at 1.
    destruct (is_sane S && Rgeb S PRICE_MIN && Rleb S PRICE_MAX);
      [cbn [assert_ bind] | now exists Price].
    unfold assert_valid_strike at 1.
    destruct (is_sane X && Rgeb X STRIKE_MIN && Rleb X STRIKE_MAX);
      [cbn [assert_ bind] | now exists Strike].
    rewrite Ht. now exists Time.
  - intros HS HX. unfold blackscholes. pass_checks. now rewrite Ht.
Qed.

Lemma blackscholes_rejects_zero_time_witness :
  blackscholes 1 100 100 0 0.05 0.2 = Err (InvalidParameter Time).
Proof.
  apply (proj2 (blackscholes_rejects_zero_time 1 100 100 0.05 0.2));
    unfold valid_price, valid_strike, STRIKE_MIN, STRIKE_MAX, PRICE_MIN, PRICE_MAX; lra.
Defined.

(** ** The divisions by [vst] *)

(** C10. With [v >= VOLATILITY_MIN] and [T >= TIME_MIN] the quantity
    [vst = v * sqrt T] that [blackscholes], [gbs] and [phi] compute first is
    defined and strictly positive, so every division by it succeeds. *)
Theorem vst_strictly_positive (v T : R) :
  VOLATILITY_MIN <= v -> TIME_MIN <= T ->
  vst v T = Ok (v * sqrt T) /\
  0 < v * sqrt T /\
  forall n : R, fdiv n (v * sqrt T) = Ok (n / (v * sqrt T)).
Proof.
  intros Hv HT.
  assert (0 < v) by (unfold VOLATILITY_MIN in Hv; lra).
  assert (0 < T) by (unfold TIME_MIN in HT; lra).
  pose proof (vst_pos v T H H0).
  repeat split.
  - apply vst_ok; lra.
  - assumption.
  - intros n. apply fdiv_ok; lra.
Qed.

Lemma vst_strictly_positive_witness :
  vst VOLATILITY_MIN TIME_MIN = Ok (VOLATILITY_MIN * sqrt TIME_MIN) /\
  0 < VOLATILITY_MIN * sqrt TIME_MIN /\
  forall n : R,
    fdiv n (VOLATILITY_MIN * sqrt TIME_MIN) = Ok (n / (VOLATILITY_MIN * sqrt TIME_MIN)).
Proof.
  apply (vst_strictly_positive VOLATILITY_MIN TIME_MIN); apply Rle_refl.
Defined.

(** ** Delegations *)

Lemma valid_rate_is_valid_carry r : valid_interest_rate r -> valid_cost_of_carry r.
Proof.
  unfold valid_interest_rate, valid_cost_of_carry, COST_OF_CARRY_MIN,
    COST_OF_CARRY_MAX, INTEREST_RATE_MIN, INTEREST_RATE_MAX. lra.
Qed.

(** The two branches of [BSAmericanCallApprox] and the two sides of
    [BSAmericanApprox], once the arguments have passed the checks.  In exact
    arithmetic the assertion of [BSAmericanApprox] on its result cannot
    fail; in binary64 it can, see [Binary64Program_facts]. *)

Lemma BSAmericanCallApprox_carry_ge_rate S X T r b v :
  valid_common S X T r v -> b >= r ->
  BSAmericanCallApprox S X T r b v = gbs 1 S X T r b v.
Proof.
  intros (HS & HX & HT & Hr & Hv) Hbr.
  unfold BSAmericanCallApprox. pass_checks. now rewrite Rgeb_true.
Qed.

Lemma BSAmericanCallApprox_carry_lt_rate S X T r b v :
  valid_common S X T r v -> b < r ->
  BSAmericanCallApprox S X T r b v = early_exercise_branch S X T r b v.
Proof.
  intros (HS & HX & HT & Hr & Hv) Hbr.
  unfold BSAmericanCallApprox. pass_checks. now rewrite Rgeb_false.
Qed.

Lemma BSAmericanApprox_call S X T r b v :
  valid_common S X T r v ->
  BSAmericanApprox 1 S X T r b v = BSAmericanCallApprox S X T r b v.
Proof.
  intros (HS & HX & HT & Hr & Hv).
  unfold BSAmericanApprox. pass_checks. cbn [truthy Z.eqb negb].
  now destruct (BSAmericanCallApprox S X T r b v).
Qed.

Lemma BSAmericanApprox_put S X T r b v :
  valid_common S X T r v ->
  BSAmericanApprox 0 S X T r b v = BSAmericanCallApprox X S T (r - b) (- b) v.
Proof.
  intros (HS & HX & HT & Hr & Hv).
  unfold BSAmericanApprox. pass_checks. cbn [truthy Z.eqb negb].
  now destruct (BSAmericanCallApprox X S T (r - b) (- b) v).
Qed.

(** C1. On arguments inside the ranges with [b >= r], [BSAmericanCallApprox]
    is the call [gbs 1 S X T r b v] and nothing else: the two outcomes are the
    same, and they are the price [gbs] computes. *)
Theorem american_call_delegates_to_gbs (S X T r b v : R) :
  valid_gbs S X T r b v -> b >= r ->
  BSAmericanCallApprox S X T r b v = gbs 1 S X T r b v /\
  gbs 1 S X T r b v = Ok (gbs_value 1 S X T r b v).
Proof.
  intros [Hc Hb] Hbr. split.
  - now apply BSAmericanCallApprox_carry_ge_rate.
  - destruct Hc as (HS & HX & HT & Hr & Hv). now apply gbs_ok.
Qed.

(** C4. With cost of carry equal to the rate, [gbs] is [blackscholes], for
    either kind of option, on every argument [blackscholes] accepts. *)
Theorem gbs_with_carry_r_is_blackscholes (fCall : Z) (S X T r v : R) :
  valid_blackscholes S X T r v ->
  gbs fCall S X T r r v = blackscholes fCall S X T r v /\
  blackscholes fCall S X T r v = Ok (blackscholes_value fCall S X T r v).
Proof.
  intros [(HS & HX & HT & Hr & Hv) Hv100].
  rewrite gbs_ok by auto using valid_rate_is_valid_carry.
  rewrite blackscholes_ok by assumption.
  split; [| reflexivity]. f_equal.
  unfold gbs_value, blackscholes_value.
  replace ((r - r) * T) with 0 by ring. rewrite exp_0.
  destruct (truthy fCall); ring.
Qed.

(** Closes a goal that concrete arguments are inside the ranges. *)
Ltac in_range :=
  unfold valid_blackscholes, valid_gbs, valid_common, valid_price, valid_strike,
    valid_time, valid_interest_rate, valid_cost_of_carry, valid_volatility,
    STRIKE_MIN, STRIKE_MAX, PRICE_MIN, PRICE_MAX, TIME_MIN, TIME_MAX,
    COST_OF_CARRY_MIN, COST_OF_CARRY_MAX, INTEREST_RATE_MIN, INTEREST_RATE_MAX,
    VOLATILITY_MIN, VOLATILITY_MAX;
  repeat split; lra.

Lemma american_call_delegates_to_gbs_witness :
  BSAmericanCallApprox 50 45 1 0.08 0.08 0.25 = gbs 1 50 45 1 0.08 0.08 0.25 /\
  gbs 1 50 45 1 0.08 0.08 0.25 = Ok (gbs_value 1 50 45 1 0.08 0.08 0.25).
Proof.
  apply (american_call_delegates_to_gbs 50 45 1 0.08 0.08 0.25); [in_range | lra].
Defined.

Lemma gbs_with_carry_r_is_blackscholes_witness :
  gbs 1 100 100 1 0.05 0.05 0.2 = blackscholes 1 100 100 1 0.05 0.2 /\
  blackscholes 1 100 100 1 0.05 0.2 = Ok (blackscholes_value 1 100 100 1 0.05 0.2).
Proof.
  apply (gbs_with_carry_r_is_blackscholes 1 100 100 1 0.05 0.2); in_range.
Defined.

(** Between 100 and [VOLATILITY_MAX] the two pricers part: [gbs] prices,
    [blackscholes] refuses the volatility. *)
Remark blackscholes_refuses_volatility_above_100 :
  gbs 1 100 100 1 0.05 0.05 100.5 = Ok (gbs_value 1 100 100 1 0.05 0.05 100.5) /\
  blackscholes 1 100 100 1 0.05 100.5 = Err (InvalidParameter Volatility).
Proof.
  split.
  - apply gbs_ok; in_range.
  - unfold blackscholes.
    rewrite assert_valid_price_ok, assert_valid_strike_ok, assert_valid_time_ok,
      assert_valid_interest_rate_ok, assert_valid_volatility_ok by in_range.
    cbn [bind]. rewrite Rgeb_true by lra. rewrite Rgtb_true by lra.
    rewrite Rleb_false by lra. reflexivity.
Qed.

(** ** Claims on [cnd] *)

(** C5, as it fails.  At the origin both [cnd 0] and [cnd (- 0)] take the
    non-negative side of the formula, and their sum is not 1. *)
Lemma cnd_sum_at_zero_is_not_one :
  exists c c' : R, cnd 0 = Ok c /\ cnd (- 0) = Ok c' /\ c + c' <> 1.
Proof.
  exists (cnd_value 0), (cnd_value (- 0)). rewrite !cnd_eq.
  repeat split. rewrite cnd_value_opp_0.
  pose proof cnd_zero_excess_bounds. lra.
Qed.

(** C5, amended.  [cnd] is defined on every real with a value between 0 and
    1, at least one half from 0 on and at most one half below 0; it is
    non-decreasing up to [1e-12]; [cnd 0] is within [1e-9] of one half;
    [cnd x + cnd (- x) = 1] for every [x] other than 0; and at 0 the sum is
    [1 + cnd_zero_excess], about [1 + 1.05e-9].  The bounds are not strict
    and the monotonicity carries a tolerance because these are the forms
    that rounding leaves true: in binary64 the value is exactly 1 from [8.3]
    on and exactly 0 up to [-8.3], and between neighbouring arguments it can
    go down by a unit in the last place. *)
Theorem cnd_properties_up_to_rounding :
  (forall x, exists c, cnd x = Ok c /\ 0 <= c <= 1 /\
     (0 <= x -> 0.5 <= c) /\ (x < 0 -> c <= 0.5)) /\
  (forall x y, x <= y ->
     exists cx cy, cnd x = Ok cx /\ cnd y = Ok cy /\ cx <= cy + 1e-12) /\
  (exists c0, cnd 0 = Ok c0 /\ Rabs (c0 - 0.5) < 1e-9) /\
  (forall x, x <> 0 ->
     exists c c', cnd x = Ok c /\ cnd (- x) = Ok c' /\ c + c' = 1) /\
  (exists c0, cnd 0 = Ok c0 /\ cnd (- 0) = Ok c0 /\
     c0 + c0 = 1 + cnd_zero_excess /\ 1.04e-9 < cnd_zero_excess < 1.05e-9).
Proof.
  repeat apply conj.
  - intros x. exists (cnd_value x). rewrite cnd_eq.
    pose proof (cnd_value_bounds x). repeat split; try lra.
    + intros Hx. rewrite cnd_value_nonneg by assumption.
      pose proof (cnd_tail_below_half x Hx). lra.
    + intros Hx. rewrite cnd_value_neg by assumption.
      assert (H' : 0 <= - x) by lra. pose proof (cnd_tail_below_half _ H'). lra.
  - intros x y Hxy. exists (cnd_value x), (cnd_value y).
    rewrite !cnd_eq. pose proof (cnd_value_mono x y Hxy). repeat split. lra.
  - exists (cnd_value 0). split; [apply cnd_eq |].
    rewrite cnd_value_nonneg by lra. pose proof cnd_tail_0_bounds.
    apply Rabs_def1; lra.
  - intros x Hx. exists (cnd_value x), (cnd_value (- x)).
    rewrite !cnd_eq. auto using cnd_value_opp.
  - exists (cnd_value 0). rewrite Ropp_0, cnd_eq.
    repeat split; try apply cnd_zero_excess_bounds.
    rewrite <- cnd_value_opp_0. now rewrite Ropp_0.
Qed.

Lemma cnd_properties_up_to_rounding_witness :
  exists cx cy, cnd 1 = Ok cx /\ cnd 2 = Ok cy /\ cx <= cy + 1e-12.
Proof.
  apply (proj1 (proj2 cnd_properties_up_to_rounding) 1 2). lra.
Defined.

(** ** Put-call parity of [blackscholes] *)

Section Parity.
Variables S X T r v : R.
Hypothesis Hvalid : valid_blackscholes S X T r v.

Let d1 := d1_value S X T r v.
Let d2 := d2_value S X T r v.

(** The difference of the two prices, by the two sums of mirrored [cnd]s. *)
Lemma blackscholes_call_minus_put :
  blackscholes_value 1 S X T r v - blackscholes_value 0 S X T r v
  = S * (cnd_value d1 + cnd_value (- d1))
    - X * exp (- r * T) * (cnd_value d2 + cnd_value (- d2)).
Proof. unfold blackscholes_value. cbn [truthy Z.eqb negb]. fold d1 d2. ring. Qed.

Lemma blackscholes_parity_gap :
  blackscholes_value 1 S X T r v - blackscholes_value 0 S X T r v
  - (S - X * exp (- r * T))
  = S * (if Req_dec_T d1 0 then cnd_zero_excess else 0)
    - X * exp (- r * T) * (if Req_dec_T d2 0 then cnd_zero_excess else 0).
Proof.
  rewrite blackscholes_call_minus_put, !cnd_value_opp_cases. ring.
Qed.

End Parity.

(** C3, as it fails.  With [S = X = 100], [T = 1], [r = 0.125], [v = 0.5]
    the formula has [d1 = 0.5] and [d2 = 0], in binary64 as in exact
    arithmetic, since [v * v / 2 = r] and every intermediate value is a
    binary64 number.  The two prices differ from parity by
    [100 * exp (-0.125) * cnd_zero_excess], more than [9e-8], which is more
    than [1e-9] times the parity value. *)
Lemma blackscholes_parity_misses_the_tolerance :
  exists c p : R,
    blackscholes 1 100 100 1 0.125 0.5 = Ok c /\
    blackscholes 0 100 100 1 0.125 0.5 = Ok p /\
    c - p <> 100 - 100 * exp (- (0.125) * 1) /\
    Rabs ((c - p) - (100 - 100 * exp (- (0.125) * 1)))
      > 1e-9 * Rabs (100 - 100 * exp (- (0.125) * 1)).
Proof.
  assert (Hvalid : valid_blackscholes 100 100 1 0.125 0.5) by in_range.
  destruct Hvalid as [(HS & HX & HT & Hr & Hv) Hv100].
  exists (blackscholes_value 1 100 100 1 0.125 0.5),
         (blackscholes_value 0 100 100 1 0.125 0.5).
  rewrite !blackscholes_ok by assumption.
  assert (Hd1 : d1_value 100 100 1 0.125 0.5 = 0.5).
  { unfold d1_value, pow2. replace (100 / 100) with 1 by lra.
    rewrite ln_1, sqrt_1. lra. }
  assert (Hd2 : d2_value 100 100 1 0.125 0.5 = 0).
  { unfold d2_value. rewrite Hd1, sqrt_1. lra. }
  pose proof (blackscholes_parity_gap 100 100 1 0.125 0.5) as Hgap.
  rewrite Hd1, Hd2 in Hgap.
  destruct (Req_dec_T 0.5 0) as [E | _]; [lra |].
  destruct (Req_dec_T 0 0) as [_ | E]; [| lra].
  pose proof cnd_zero_excess_bounds as [Hlo Hhi].
  pose proof (exp_ineq1_le (- (0.125) * 1)) as Hexp.
  assert (Hexp1 : exp (- (0.125) * 1) < 1).
  { pose proof (exp_increasing (- (0.125) * 1) 0) as Hinc.
    rewrite exp_0 in Hinc. apply Hinc. lra. }
  set (E := exp (- (0.125) * 1)) in *.
  set (D := blackscholes_value 1 100 100 1 0.125 0.5
            - blackscholes_value 0 100 100 1 0.125 0.5) in *.
  assert (HD : D - (100 - 100 * E) = - (100 * E * cnd_zero_excess)) by lra.
  assert (Hpos : 9e-8 < 100 * E * cnd_zero_excess) by nra.
  repeat split; try lra.
  rewrite HD, Rabs_Ropp, Rabs_right by lra.
  rewrite Rabs_right by lra. nra.
Qed.

(** C3, amended.  On every argument [blackscholes] accepts, the call and the
    put are priced, and call minus put is exactly [S - X * exp (- r * T)]
    whenever neither [d1] nor [d2] is 0; in every case the two sides differ
    by at most [1.05e-9] times the larger of [S] and [X * exp (- r * T)]. *)
Theorem blackscholes_put_call_parity (S X T r v : R) :
  valid_blackscholes S X T r v ->
  exists c p : R,
    blackscholes 1 S X T r v = Ok c /\
    blackscholes 0 S X T r v = Ok p /\
    (d1_value S X T r v <> 0 -> d2_value S X T r v <> 0 ->
     c - p = S - X * exp (- r * T)) /\
    Rabs ((c - p) - (S - X * exp (- r * T)))
      <= 1.05e-9 * Rmax S (X * exp (- r * T)).
Proof.
  intros Hvalid. pose proof Hvalid as [(HS & HX & HT & Hr & Hv) Hv100].
  exists (blackscholes_value 1 S X T r v), (blackscholes_value 0 S X T r v).
  rewrite !blackscholes_ok by assumption.
  pose proof (blackscholes_parity_gap S X T r v) as Hgap.
  pose proof cnd_zero_excess_bounds as [Hlo Hhi].
  pose proof (valid_price_pos S HS) as HSpos.
  pose proof (valid_price_pos X HX) as HXpos.
  pose proof (exp_pos (- r * T)) as Hexp.
  assert (HXe : 0 < X * exp (- r * T)) by now apply Rmult_lt_0_compat.
  repeat split.
  - intros Hd1 Hd2.
    destruct (Req_dec_T (d1_value S X T r v) 0); [contradiction |].
    destruct (Req_dec_T (d2_value S X T r v) 0); [contradiction |]. lra.
  - rewrite Hgap.
    pose proof (Rmax_l S (X * exp (- r * T))).
    pose proof (Rmax_r S (X * exp (- r * T))).
    set (M := Rmax S (X * exp (- r * T))) in *.
    set (Xe := X * exp (- r * T)) in *.
    apply Rabs_le.
    destruct (Req_dec_T (d1_value S X T r v) 0);
      destruct (Req_dec_T (d2_value S X T r v) 0); nra.
Qed.

Lemma blackscholes_put_call_parity_witness :
  exists c p : R,
    blackscholes 1 100 100 1 0.05 0.2 = Ok c /\
    blackscholes 0 100 100 1 0.05 0.2 = Ok p /\
    (d1_value 100 100 1 0.05 0.2 <> 0 -> d2_value 100 100 1 0.05 0.2 <> 0 ->
     c - p = 100 - 100 * exp (- (0.05) * 1)) /\
    Rabs ((c - p) - (100 - 100 * exp (- (0.05) * 1)))
      <= 1.05e-9 * Rmax 100 (100 * exp (- (0.05) * 1)).
Proof.
  apply (blackscholes_put_call_parity 100 100 1 0.05 0.2). in_range.
Defined.

(** ** The early-exercise branch: [Beta], [BInfinity], [B0] and the trigger *)

Section EarlyExercise.
Variables X T r b v : R.
Hypothesis HX : valid_strike X.
Hypothesis HT : valid_time T.
Hypothesis Hr : valid_interest_rate r.
Hypothesis Hv : valid_volatility v.
Hypothesis Hbr : b < r.

Let X_pos : 0 < X := valid_price_pos X HX.
Let T_pos : 0 < T := valid_time_pos T HT.
Let v_pos : 0 < v := valid_volatility_pos v Hv.
Let r_nonneg : 0 <= r := valid_interest_rate_nonneg r Hr.

Local Abbreviation vv := (v * v).
Local Abbreviation q := (b / vv).
Local Abbreviation arg := (pow2 (q - 0.5) + 2 * r / vv).
Local Abbreviation beta := (Beta_value r b v).

Lemma vv_pos : 0 < vv.
Proof. nra. Qed.

Lemma vv_q : vv * q = b.
Proof. pose proof vv_pos. field. lra. Qed.

Lemma rate_over_vv_nonneg : 0 <= 2 * r / vv.
Proof. pose proof vv_pos. apply Rmult_le_pos; [lra |]. left. now apply Rinv_0_lt_compat. Qed.

Lemma Beta_sqrt_arg_nonneg : 0 <= arg.
Proof.
  pose proof rate_over_vv_nonneg. pose proof (Rle_0_sqr (q - 0.5)) as Hsq.
  unfold Rsqr in Hsq. unfold pow2. lra.
Qed.

Lemma Beta_ok : Beta r b v = Ok beta.
Proof.
  pose proof vv_pos. pose proof Beta_sqrt_arg_nonneg.
  unfold Beta. cbn [assert_sane is_sane assert_ bind].
  rewrite !fdiv_ok by lra. cbn [bind].
  rewrite fsqrt_ok by assumption. reflexivity.
Qed.

(** The gap between the rate and the carry, over [vv]. *)
Lemma rate_gap : 2 * r / vv - 2 * q = 2 * (r - b) / vv.
Proof. pose proof vv_pos. field. lra. Qed.

Lemma rate_gap_pos : 0 < 2 * (r - b) / vv.
Proof.
  pose proof vv_pos. apply Rmult_lt_0_compat; [lra |]. now apply Rinv_0_lt_compat.
Qed.

Lemma Beta_gt_1 : 1 < beta.
Proof.
  pose proof Beta_sqrt_arg_nonneg as Harg.
  pose proof (sqrt_pos arg) as Hs. pose proof (sqrt_sqrt arg Harg) as Hss.
  pose proof rate_gap. pose proof rate_gap_pos.
  unfold Beta_value.
  set (s := sqrt arg) in *.
  assert (Hsq : s * s = (q + 0.5) * (q + 0.5) + 2 * (r - b) / vv).
  { rewrite Hss. unfold pow2. lra. }
  destruct (Rlt_dec (q + 0.5) 0); [lra |].
  assert (q + 0.5 < s) by nra. lra.
Qed.

(** [Beta] is the root above 1 of
    [vv / 2 * Beta * (Beta - 1) + b * Beta - r = 0]. *)
Lemma Beta_quadratic : r - b * beta = vv / 2 * (beta * (beta - 1)).
Proof.
  pose proof Beta_sqrt_arg_nonneg as Harg.
  pose proof (sqrt_sqrt arg Harg) as Hss. pose proof vv_q as Hq.
  pose proof vv_pos.
  unfold Beta_value.
  set (s := sqrt arg) in *.
  assert (Hs2 : vv * (s * s) = vv * ((q - 0.5) * (q - 0.5)) + 2 * r).
  { rewrite Hss. unfold pow2. rewrite Rmult_plus_distr_l. f_equal. field; lra. }
  rewrite <- Hq at 1. nra.
Qed.

Lemma rate_above_carried_Beta : b * beta < r.
Proof.
  pose proof Beta_quadratic. pose proof Beta_gt_1. pose proof vv_pos.
  assert (0 < vv / 2 * (beta * (beta - 1))).
  { apply Rmult_lt_0_compat; [lra | apply Rmult_lt_0_compat; lra]. }
  lra.
Qed.

Lemma BInfinity_ok : BInfinity beta X = Ok (BInfinity_value beta X).
Proof.
  pose proof Beta_gt_1. unfold BInfinity. now rewrite fdiv_ok by lra.
Qed.

Lemma BInfinity_above_strike : X < BInfinity_value beta X.
Proof.
  pose proof Beta_gt_1.
  unfold BInfinity_value.
  replace (beta / (beta - 1)) with (1 + / (beta - 1)) by (field; lra).
  assert (0 < / (beta - 1)) by (apply Rinv_0_lt_compat; lra).
  nra.
Qed.

Lemma B0_ok : B0 X r b = Ok (B0_value X r b).
Proof. unfold B0. now rewrite fdiv_ok by lra. Qed.

Lemma B0_ge_strike : X <= B0_value X r b.
Proof. apply Rmax_l. Qed.

Lemma BInfinity_above_B0 : B0_value X r b < BInfinity_value beta X.
Proof.
  pose proof Beta_gt_1. pose proof rate_above_carried_Beta.
  unfold B0_value. apply Rmax_lub_lt; [apply BInfinity_above_strike |].
  unfold BInfinity_value.
  apply Rmult_lt_compat_r; [assumption |].
  assert (Hdiff : beta / (beta - 1) - r / (r - b)
                  = (r - b * beta) / ((beta - 1) * (r - b))) by (field; lra).
  assert (0 < (r - b * beta) / ((beta - 1) * (r - b))).
  { apply Rdiv_lt_0_compat; [lra | apply Rmult_lt_0_compat; lra]. }
  lra.
Qed.

Lemma ht_ok :
  ht T b v (B0_value X r b) (BInfinity_value beta X)
  = Ok (ht_value T b v (B0_value X r b) (BInfinity_value beta X)).
Proof.
  pose proof BInfinity_above_B0.
  unfold ht. rewrite fsqrt_ok by lra. cbn [bind].
  now rewrite fdiv_ok by lra.
Qed.

Lemma trigger_price_ok :
  trigger_price beta X T r b v = Ok (trigger_value X T r b v).
Proof.
  unfold trigger_price. rewrite BInfinity_ok. cbn [bind].
  rewrite B0_ok. cbn [bind]. rewrite ht_ok. reflexivity.
Qed.

End EarlyExercise.

(** In exact arithmetic, on the [b < r] branch with arguments inside the
    ranges, [Beta] is computed and is above 1, so [Beta - 1] is not 0 and
    [BInfinity = Beta / (Beta - 1) * X] is computed and is above the strike;
    [r - b] is not 0 either, and [B0] is computed. *)
Lemma early_exercise_divisions_exact (S X T r b v : R) :
  valid_common S X T r v -> b < r ->
  exists beta binf b0 : R,
    Beta r b v = Ok beta /\ 1 < beta /\ beta - 1 <> 0 /\
    BInfinity beta X = Ok binf /\ binf = beta / (beta - 1) * X /\ X < binf /\
    r - b <> 0 /\
    B0 X r b = Ok b0 /\ b0 = Rmax X (r / (r - b) * X).
Proof.
  intros (HS & HX & HT & Hr & Hv) Hbr.
  assert (1 < Beta_value r b v) by now apply Beta_gt_1.
  exists (Beta_value r b v), (BInfinity_value (Beta_value r b v) X), (B0_value X r b).
  repeat split.
  - now apply Beta_ok.
  - assumption.
  - lra.
  - now apply BInfinity_ok.
  - now apply BInfinity_above_strike.
  - lra.
  - now apply B0_ok.
Qed.

Example early_exercise_divisions_exact_example :
  exists beta binf b0 : R,
    Beta 0.1 0.05 0.3 = Ok beta /\ 1 < beta /\ beta - 1 <> 0 /\
    BInfinity beta 100 = Ok binf /\ binf = beta / (beta - 1) * 100 /\ 100 < binf /\
    0.1 - 0.05 <> 0 /\
    B0 100 0.1 0.05 = Ok b0 /\ b0 = Rmax 100 (0.1 / (0.1 - 0.05) * 100).
Proof.
  apply (early_exercise_divisions_exact 100 100 0.5 0.1 0.05 0.3); [in_range | lra].
Qed.

(** C8, in binary64.  With [S = X = 100], [T = 1], [r = 1e-20], [b = 0] and
    [v = 0.25] every argument assertion passes and [b < r], but
    [2 * r / vv] is lost when it is added to [0.25]: [Beta] is exactly 1,
    [Beta - 1] is 0, [BInfinity] is the quotient [1 / 0] times [X], an
    infinity, and the assertion [is_sane(BInfinity)] fails.  The same happens
    with [r = 0.0500001], [b = 0.05] and [v = 1e-7]. *)
Module Binary64_facts.
Import Stdlib.Floats.Floats.
#[local] Set Warnings "-inexact-float".
Local Open Scope float_scope.

(** C8, in binary64: [Beta] rounds to 1 and the division by [Beta - 1] is a
    division by zero, on arguments that pass every check. *)
Theorem Beta_rounds_to_one :
  Binary64.valid_price 100 = true /\ Binary64.valid_strike 100 = true /\
  Binary64.valid_time 1 = true /\ Binary64.valid_interest_rate 1e-20 = true /\
  Binary64.valid_volatility 0.25 = true /\
  (0 <? 1e-20) = true /\
  Binary64.Beta 1e-20 0 0.25 = 1 /\
  Binary64.Beta 1e-20 0 0.25 - 1 = 0 /\
  Binary64.BInfinity (Binary64.Beta 1e-20 0 0.25) 100 = infinity /\
  Binary64.BSAmericanCallApprox_to_BInfinity 100 100 1 1e-20 0 0.25
  = Binary64.NotSane_BInfinity /\
  Binary64.BSAmericanCallApprox_to_BInfinity 100 100 1 0.0500001 0.05 1e-7
  = Binary64.NotSane_BInfinity.
Proof. vm_compute. repeat split. Qed.

(** By contrast [vst] does not lose its sign to rounding: at the smallest
    volatility and time the ranges allow, [v * sqrt(T)] is a positive
    binary64 number. *)
Remark vst_positive_at_the_minimum :
  (0 <? Binary64.VOLATILITY_MIN * sqrt Binary64.TIME_MIN) = true.
Proof. vm_compute. reflexivity. Qed.

End Binary64_facts.

(** ** The put side and the checks of the callee *)

(** C9. The checks of [BSAmericanApprox] do not imply those of the callee on
    the put side.  For arguments inside the ranges:
    - with [b > r] the call side is priced, but on the put side the callee
      receives the rate [r - b < 0], refuses it, and the put fails with the
      callee's [InvalidParameter InterestRate];
    - with [r = b] the callee receives the rate 0 and the carry [- b]; its
      rate check passes, and when [b > 0] it runs the early-exercise branch,
      whose [B0] divides the rate 0 by [0 - - b] with no check in between. *)
Theorem american_put_reaches_callee_outside_its_domain (S X T r b v : R) :
  valid_gbs S X T r b v ->
  (r < b ->
     (exists c, BSAmericanApprox 1 S X T r b v = Ok c) /\
     r - b < 0 /\
     assert_valid_interest_rate (r - b) = Err (InvalidParameter InterestRate) /\
     BSAmericanCallApprox X S T (r - b) (- b) v = Err (InvalidParameter InterestRate) /\
     BSAmericanApprox 0 S X T r b v = Err (InvalidParameter InterestRate)) /\
  (r = b ->
     r - b = 0 /\
     assert_valid_interest_rate (r - b) = Ok tt /\
     BSAmericanApprox 0 S X T r b v = BSAmericanCallApprox X S T 0 (- b) v /\
     (0 < b ->
        BSAmericanCallApprox X S T 0 (- b) v = early_exercise_branch X S T 0 (- b) v /\
        fdiv 0 (0 - - b) = Ok (0 / (0 - - b)) /\
        B0 S 0 (- b) = Ok S)).
Proof.
  intros [Hc Hb]. pose proof Hc as (HS & HX & HT & Hr & Hv).
  assert (Hzero : valid_interest_rate 0)
    by (unfold valid_interest_rate, INTEREST_RATE_MIN, INTEREST_RATE_MAX; lra).
  split.
  - intros Hrb.
    assert (Hbad : ~ valid_interest_rate (r - b))
      by (unfold valid_interest_rate, INTEREST_RATE_MIN; lra).
    assert (Hcallee : BSAmericanCallApprox X S T (r - b) (- b) v
                      = Err (InvalidParameter InterestRate)).
    { unfold BSAmericanCallApprox. pass_checks.
      now rewrite assert_valid_interest_rate_err. }
    repeat split.
    + exists (gbs_value 1 S X T r b v).
      rewrite BSAmericanApprox_call, BSAmericanCallApprox_carry_ge_rate
        by (assumption || lra).
      now apply gbs_ok.
    + lra.
    + now apply assert_valid_interest_rate_err.
    + assumption.
    + now rewrite BSAmericanApprox_put.
  - intros ->. replace (b - b) with 0 by ring.
    repeat split.
    + now apply assert_valid_interest_rate_ok.
    + rewrite BSAmericanApprox_put by assumption. now replace (b - b) with 0 by ring.
    + apply BSAmericanCallApprox_carry_lt_rate; [| lra].
      exact (conj HX (conj HS (conj HT (conj Hzero Hv)))).
    + apply fdiv_ok. lra.
    + unfold B0. rewrite fdiv_ok by lra. cbn [bind assert_sane is_sane assert_].
      f_equal. pose proof (valid_price_pos S HS).
      replace (0 / (0 - - b) * S) with 0 by (field; lra).
      apply Rmax_left. lra.
Qed.

Lemma american_put_reaches_callee_outside_its_domain_witness :
  BSAmericanApprox 0 100 100 1 0.05 0.1 0.2 = Err (InvalidParameter InterestRate).
Proof.
  apply (american_put_reaches_callee_outside_its_domain 100 100 1 0.05 0.1 0.2);
    [in_range | lra].
Defined.

(** With [r = b = 0] the callee is on its [gbs] branch: the division is not
    reached.  Whenever the put side reaches it, its divisor is the rate [r] of
    the caller, which is then positive. *)
Remark american_put_divisor_is_caller_rate (r b : R) : (r - b) - (- b) = r.
Proof. ring. Qed.

(** ** The American approximation against the European price *)

(** A lower bound of the European call, from [0 < cnd < 1] in exact
    arithmetic. *)

Lemma gbs_call_above_minus_strike S X T r b v :
  0 < S -> 0 < X -> - (X * exp (- r * T)) < gbs_value 1 S X T r b v.
Proof.
  intros HS HX. unfold gbs_value. cbn [truthy Z.eqb negb].
  pose proof (cnd_value_bounds (d1_value S X T b v)).
  pose proof (cnd_value_bounds (d2_value S X T b v)).
  pose proof (exp_pos ((b - r) * T)). pose proof (exp_pos (- r * T)).
  assert (0 < S * exp ((b - r) * T) * cnd_value (d1_value S X T b v))
    by (repeat apply Rmult_lt_0_compat; lra).
  assert (X * exp (- r * T) * cnd_value (d2_value S X T b v)
          < X * exp (- r * T) * 1).
  { apply Rmult_lt_compat_l; [apply Rmult_lt_0_compat |]; lra. }
  lra.
Qed.

Section AboveTrigger.
Variables S X T r b v : R.
Hypothesis Hvalid : valid_common S X T r v.
Hypothesis Hbr : b < r.

Let HS : valid_price S := proj1 Hvalid.
Let HX : valid_strike X := proj1 (proj2 Hvalid).
Let HT : valid_time T := proj1 (proj2 (proj2 Hvalid)).
Let Hr : valid_interest_rate r := proj1 (proj2 (proj2 (proj2 Hvalid))).
Let Hv : valid_volatility v := proj2 (proj2 (proj2 (proj2 Hvalid))).

(** At or above the trigger price the approximation is the exercise value. *)
Lemma early_exercise_above_trigger :
  trigger_value X T r b v <= S ->
  BSAmericanCallApprox S X T r b v = Ok (S - X).
Proof.
  intros HI. rewrite BSAmericanCallApprox_carry_lt_rate by assumption.
  unfold early_exercise_branch.
  rewrite Beta_ok by assumption. cbn [bind].
  rewrite trigger_price_ok by assumption. cbn [bind].
  now rewrite Rgeb_true by lra.
Qed.

(** [exp ht >= 1 + ht] bounds the trigger price by a multiple of [B0]. *)
Lemma trigger_le_multiple_of_B0 :
  trigger_value X T r b v <= B0_value X r b * (1 + (b * T + 2 * v * sqrt T)).
Proof.
  pose proof (BInfinity_above_B0 X r b v HX Hr Hv Hbr) as Hgap.
  unfold trigger_value. cbv zeta.
  set (B := B0_value X r b) in *.
  set (BI := BInfinity_value (Beta_value r b v) X) in *.
  pose proof (exp_ineq1_le (ht_value T b v B BI)) as Hexp.
  assert (Hht : (BI - B) * ht_value T b v B BI = - (b * T + 2 * v * sqrt T) * B).
  { unfold ht_value. field. lra. }
  set (h := ht_value T b v B BI) in *.
  assert ((BI - B) * (1 - exp h) <= (BI - B) * (- h))
    by (apply Rmult_le_compat_l; lra).
  lra.
Qed.

End AboveTrigger.

(** [exp (- y) <= 1 / (1 + y)] for [y >= 0]. *)
Lemma exp_opp_le y : 0 <= y -> exp (- y) <= / (1 + y).
Proof.
  intros Hy. rewrite exp_Ropp. pose proof (exp_ineq1_le y).
  apply Rinv_le_contravar; lra.
Qed.

(** C6.  A call with [S = 1], [X = 100], [T = 1], [r = 0.05], [b = -2],
    [v = 0.5] has [b * T + 2 * v * sqrt T = 0 - 1 < 0]: the trigger price
    falls to 0 or below, the test [S >= I] succeeds and the function returns
    the exercise value [S - X = -99] of a call that is out of the money, a
    negative price, below the European price (which is above
    [- 100 * exp (-0.05)]). *)
Lemma american_call_below_european :
  exists a g : R,
    BSAmericanApprox 1 1 100 1 0.05 (-2) 0.5 = Ok a /\
    gbs 1 1 100 1 0.05 (-2) 0.5 = Ok g /\
    a = -99 /\ a < g.
Proof.
  assert (Hvalid : valid_gbs 1 100 1 0.05 (-2) 0.5) by in_range.
  destruct Hvalid as [Hc Hb]. pose proof Hc as (HS & HX & HT & Hr & Hv).
  assert (Hbr : -2 < 0.05) by lra.
  exists (1 - 100), (gbs_value 1 1 100 1 0.05 (-2) 0.5).
  assert (Htrig : trigger_value 100 1 0.05 (-2) 0.5 <= 1).
  { pose proof (trigger_le_multiple_of_B0 1 100 1 0.05 (-2) 0.5 Hc Hbr) as H.
    rewrite sqrt_1 in H. lra. }
  repeat split.
  - rewrite BSAmericanApprox_call by assumption.
    now apply early_exercise_above_trigger.
  - now apply gbs_ok.
  - lra.
  - pose proof (gbs_call_above_minus_strike 1 100 1 0.05 (-2) 0.5) as Hg.
    pose proof (exp_opp_le 0.05) as He.
    replace (- (0.05) * 1) with (- (0.05)) in Hg by lra.
    assert (/ (1 + 0.05) < 0.99) by lra.
    lra.
Qed.

(** ** The put side above the rate range *)

(** The put side also leaves the callee's rate range upwards: with
    [r - b > INTEREST_RATE_MAX], which the ranges of [r] and [b] allow, the
    put fails on the callee's rate check. *)
Remark american_put_rate_above_range S X T r b v :
  valid_common S X T r v -> INTEREST_RATE_MAX < r - b ->
  BSAmericanApprox 0 S X T r b v = Err (InvalidParameter InterestRate).
Proof.
  intros Hc Hrb. rewrite BSAmericanApprox_put by assumption.
  destruct Hc as (HS & HX & HT & Hr & Hv).
  unfold BSAmericanCallApprox. pass_checks.
  rewrite assert_valid_interest_rate_err; [reflexivity |].
  unfold valid_interest_rate. lra.
Qed.

(** * Further properties of the pricers *)

(** ** Which arguments are priced, and what the other outcomes are *)

Lemma assert_range_cases lo hi x e :
  (lo <= x <= hi /\ assert_ (is_sane x && Rgeb x lo && Rleb x hi) e = Ok tt) \/
  (~ lo <= x <= hi /\ assert_ (is_sane x && Rgeb x lo && Rleb x hi) e = Err e).
Proof.
  destruct (Rle_dec lo x) as [Hlo | Hlo]; [destruct (Rle_dec x hi) as [Hhi | Hhi] |].
  - left. split; [lra | apply assert_range_ok; lra].
  - right. split; [lra | apply assert_range_err; lra].
  - right. split; [lra | apply assert_range_err; lra].
Qed.

(** Decides one argument assertion at the head of the computation [E]:
    either it passes and the proof goes on with the range as a hypothesis, or
    [E] is the refusal and closes the goal. *)
Ltac decide_check E unfolder lo hi x e H :=
  let Eq := fresh "Eq" in
  unfold unfolder in E;
  destruct (assert_range_cases lo hi x e) as [[H Eq] | [H Eq]];
  rewrite Eq in E; cbn [bind] in E;
  [ | right; split; [tauto | eexists; exact E]].

Lemma blackscholes_cases (fCall : Z) (S X T r v : R) :
  (valid_blackscholes S X T r v /\
   blackscholes fCall S X T r v = Ok (blackscholes_value fCall S X T r v)) \/
  (~ valid_blackscholes S X T r v /\
   exists p, blackscholes fCall S X T r v = Err (InvalidParameter p)).
Proof.
  unfold valid_blackscholes, valid_common, valid_price, valid_strike, valid_time,
    valid_interest_rate, valid_volatility.
  remember (blackscholes fCall S X T r v) as o eqn:E. pose proof E as E'.
  unfold blackscholes in E.
  decide_check E assert_valid_price PRICE_MIN PRICE_MAX S (InvalidParameter Price) HS.
  decide_check E assert_valid_strike STRIKE_MIN STRIKE_MAX X (InvalidParameter Strike) HX.
  decide_check E assert_valid_time TIME_MIN TIME_MAX T (InvalidParameter Time) HT.
  decide_check E assert_valid_interest_rate INTEREST_RATE_MIN INTEREST_RATE_MAX r
    (InvalidParameter InterestRate) Hr.
  decide_check E assert_valid_volatility VOLATILITY_MIN VOLATILITY_MAX v
    (InvalidParameter Volatility) Hv.
  destruct (Rle_dec v 100) as [Hv100 | Hv100].
  - left. split; [tauto |]. rewrite E'. now apply blackscholes_ok.
  - right. split; [tauto |]. exists Volatility.
    rewrite Rgeb_true in E by (unfold INTEREST_RATE_MIN in Hr; lra).
    rewrite Rgtb_true in E by (unfold VOLATILITY_MIN in Hv; lra).
    rewrite Rleb_false in E by lra. exact E.
Qed.

Lemma ok_is_not_refusal {A : Type} (o : result A) :
  (exists p, o = Err (InvalidParameter p)) ->
  (forall c, o <> Ok c) /\ o <> Err ComputationFault.
Proof. intros [p ->]. split; [intros c |]; discriminate. Qed.

(** X2. [blackscholes] returns a price exactly on the arguments inside the
    ranges with [v <= 100]: its own assertions [r >= 0] and [v > 0] never
    refuse anything the range assertions let through, [v <= 100] does.  It
    never ends in a computation fault. *)
Theorem blackscholes_prices_exactly_its_valid_arguments (fCall : Z) (S X T r v : R) :
  ((exists c, blackscholes fCall S X T r v = Ok c) <-> valid_blackscholes S X T r v) /\
  blackscholes fCall S X T r v <> Err ComputationFault.
Proof.
  destruct (blackscholes_cases fCall S X T r v) as [[Hv Hok] | [Hbad Herr]].
  - rewrite Hok. split; [split; eauto | discriminate].
  - destruct (ok_is_not_refusal _ Herr) as [Hno Hcf].
    split; [split | assumption].
    + intros [c Hc]. now apply Hno in Hc.
    + intros Hv. contradiction.
Qed.



(** ** [normdist] *)

(** X14. [normdist] is even, it lies between 0 and [one_div_sqrt2pi], and it
    is [one_div_sqrt2pi] at 0.  (In binary64 the lower bound is attained:
    [exp] underflows to 0 for large [|x|].) *)
Theorem normdist_is_even_and_bounded :
  (forall x, 0 <= normdist x <= one_div_sqrt2pi) /\
  normdist 0 = one_div_sqrt2pi /\
  (forall x, normdist (- x) = normdist x).
Proof.
  assert (Hc : 0 < one_div_sqrt2pi) by (unfold one_div_sqrt2pi; lra).
  assert (H0 : normdist 0 = one_div_sqrt2pi).
  { unfold normdist. replace (- (0 * 0 / 2)) with 0 by lra. rewrite exp_0. ring. }
  split; [| split].
  - intros x. unfold normdist. pose proof (exp_pos (- (x * x / 2))) as Hpos.
    assert (Hle : exp (- (x * x / 2)) <= 1).
    { rewrite <- exp_0. pose proof (Rle_0_sqr x) as Hsq. unfold Rsqr in Hsq.
      assert (Hneg : - (x * x / 2) <= 0) by lra.
      destruct Hneg as [Hlt | Heq];
        [left; now apply exp_increasing | right; now rewrite Heq]. }
    split; nra.
  - assumption.
  - intros x. unfold normdist. now replace (- x * - x) with (x * x) by ring.
Qed.

(** * The program in binary64 *)

Module Binary64Program_facts.
Import Stdlib.Floats.Floats.
#[local] Set Warnings "-inexact-float".
Local Open Scope float_scope.
Import Binary64 Binary64Program.

(** ** Outcomes that are not the refusal of an argument *)

Lemma never_refuses_Ok {A : Type} (a : A) : never_refuses (Ok a).
Proof. intros p. discriminate. Qed.

Lemma never_refuses_bind {A B : Type} (o : result A) (k : A -> result B) :
  never_refuses o -> (forall a, never_refuses (k a)) -> never_refuses (bind o k).
Proof.
  intros Ho Hk. destruct o as [a | e]; cbn [bind]; [apply Hk |].
  intros p [= ->]. now apply (Ho p).
Qed.

Lemma never_refuses_assert_sane (a : float) : never_refuses (assert_sane a).
Proof. unfold assert_sane, assert_. destruct (is_sane a); intros p; discriminate. Qed.

Lemma never_refuses_passed (c : bool) (e : error) :
  c = true -> never_refuses (assert_ c e).
Proof. intros ->. apply never_refuses_Ok. Qed.

(** Walks through a computation whose argument assertions are known to
    pass. *)
Ltac outcome :=
  repeat first
    [ apply never_refuses_Ok
    | apply never_refuses_assert_sane
    | apply never_refuses_passed; assumption
    | apply never_refuses_bind; [| intros ? ] ].

Lemma refusal_decided {A : Type} (o : result A) (c : bool) :
  (c = true -> never_refuses o) ->
  (c = false -> exists p, o = Err (InvalidParameter p)) ->
  ((exists p, o = Err (InvalidParameter p)) <-> c = false).
Proof.
  intros Ht Hf. destruct c.
  - split; [| discriminate]. intros [p Hp]. now apply (Ht eq_refl p) in Hp.
  - split; auto.
Qed.

Lemma split_valid_common S X T r v :
  valid_common S X T r v = true ->
  valid_price S = true /\ valid_strike X = true /\ valid_time T = true /\
  valid_interest_rate r = true /\ valid_volatility v = true.
Proof.
  unfold valid_common. intros H.
  do 4 (apply andb_prop in H; destruct H as [H ?]). tauto.
Qed.

Section AnyMath.
Variable m : math_h.

(** [cnd] has one way to fail, the assertion on its argument. *)
Lemma cnd_never_refuses (x : float) : never_refuses (cnd m x).
Proof. unfold cnd. cbv zeta. outcome. Qed.

Lemma phi_never_refuses (S T gamma_val H I r b v : float) :
  valid_price S = true -> valid_time T = true ->
  valid_interest_rate r = true -> valid_volatility v = true ->
  never_refuses (phi m S T gamma_val H I r b v).
Proof.
  intros HS HT Hr Hv.
  unfold phi, assert_valid_price, assert_valid_time, assert_valid_interest_rate,
    assert_valid_volatility. cbv zeta.
  outcome; apply cnd_never_refuses.
Qed.

Lemma early_exercise_branch_never_refuses (S X T r b v : float) :
  valid_price S = true -> valid_time T = true ->
  valid_interest_rate r = true -> valid_volatility v = true ->
  never_refuses (early_exercise_branch m S X T r b v).
Proof.
  intros HS HT Hr Hv. unfold early_exercise_branch. cbv zeta.
  outcome. destruct (geb S _); outcome; now apply phi_never_refuses.
Qed.

(** What [gbs] does once its six argument assertions have passed. *)
Lemma gbs_on_valid_arguments (fCall : Z) (S X T r b v : float) :
  valid_gbs S X T r b v = true ->
  never_refuses (gbs m fCall S X T r b v) /\
  forall c, gbs m fCall S X T r b v = Ok c -> is_sane c = true.
Proof.
  unfold valid_gbs. intros H.
  do 5 (apply andb_prop in H; destruct H as [H ?]).
  unfold gbs, assert_valid_price, assert_valid_strike, assert_valid_time,
    assert_valid_interest_rate, assert_valid_cost_of_carry, assert_valid_volatility.
  repeat match goal with E : _ = true |- _ => rewrite E; clear E end.
  cbn [assert_ bind]. cbv zeta. split.
  - outcome. destruct (truthy fCall); outcome; apply cnd_never_refuses.
  - intros c.
    destruct (assert_sane (v * sqrt T)); cbn [bind]; [| discriminate].
    match goal with |- bind ?o _ = _ -> _ => destruct o as [res | e] end;
      cbn [bind]; [| discriminate].
    unfold assert_sane, assert_. destruct (is_sane res) eqn:E; cbn [bind];
      [| discriminate].
    intros [= <-]. exact E.
Qed.

Lemma gbs_on_invalid_arguments (fCall : Z) (S X T r b v : float) :
  valid_gbs S X T r b v = false ->
  exists p, gbs m fCall S X T r b v = Err (InvalidParameter p).
Proof.
  unfold valid_gbs, gbs, assert_valid_price, assert_valid_strike, assert_valid_time,
    assert_valid_interest_rate, assert_valid_cost_of_carry, assert_valid_volatility.
  destruct (valid_price S); cbn [andb assert_ bind]; [| eauto].
  destruct (valid_strike X); cbn [andb assert_ bind]; [| eauto].
  destruct (valid_time T); cbn [andb assert_ bind]; [| eauto].
  destruct (valid_interest_rate r); cbn [andb assert_ bind]; [| eauto].
  destruct (valid_cost_of_carry b); cbn [andb assert_ bind]; [| eauto].
  destruct (valid_volatility v); cbn [andb assert_ bind]; [discriminate | eauto].
Qed.

Lemma american_call_on_valid_arguments (S X T r b v : float) :
  valid_american_call S X T r b v = true ->
  never_refuses (BSAmericanCallApprox m S X T r b v).
Proof.
  unfold valid_american_call. intros H.
  apply andb_prop in H. destruct H as [Hc Hb].
  pose proof Hc as Hc'. apply split_valid_common in Hc' as (HS & HX & HT & Hr & Hv).
  unfold BSAmericanCallApprox, assert_valid_price, assert_valid_strike,
    assert_valid_time, assert_valid_interest_rate, assert_valid_volatility.
  rewrite HS, HX, HT, Hr, Hv. cbn [assert_ bind].
  destruct (geb b r); cbn [negb orb] in Hb.
  - apply gbs_on_valid_arguments. unfold valid_gbs.
    now rewrite HS, HX, HT, Hr, Hb, Hv.
  - now apply early_exercise_branch_never_refuses.
Qed.

Lemma american_call_on_invalid_arguments (S X T r b v : float) :
  valid_american_call S X T r b v = false ->
  exists p, BSAmericanCallApprox m S X T r b v = Err (InvalidParameter p).
Proof.
  unfold valid_american_call, valid_common, BSAmericanCallApprox, assert_valid_price,
    assert_valid_strike, assert_valid_time, assert_valid_interest_rate,
    assert_valid_volatility.
  destruct (valid_price S) eqn:HS; cbn [andb assert_ bind]; [| eauto].
  destruct (valid_strike X) eqn:HX; cbn [andb assert_ bind]; [| eauto].
  destruct (valid_time T) eqn:HT; cbn [andb assert_ bind]; [| eauto].
  destruct (valid_interest_rate r) eqn:Hr; cbn [andb assert_ bind]; [| eauto].
  destruct (valid_volatility v) eqn:Hv; cbn [andb assert_ bind]; [| eauto].
  destruct (geb b r); cbn [negb orb]; [| discriminate].
  intros Hb. apply gbs_on_invalid_arguments. unfold valid_gbs.
  now rewrite HS, HX, HT, Hr, Hb, Hv.
Qed.

End AnyMath.

(** ** The put side of [BSAmericanApprox] *)

(** C2, as it fails.  The put with [S = 100], [X = 50], [T = 1], [r = 0.01],
    [b = -0.04], [v = 0.01] has every argument inside its range.  The callee
    [BSAmericanCallApprox (50, 100, 1, r - b, - b, 0.01)] is below its
    trigger price; in [phi] the power [pow (I / S, kappa)], about [10^800],
    overflows to infinity and the [cnd] it multiplies is 0, their product is
    a NaN, and the callee, which has no assertion on its result, returns it.
    [BSAmericanApprox] then fails at its own [assert(is_sane(result))]: the
    put does not return what the callee returns. *)
Lemma american_put_is_not_the_transformed_call :
  valid_gbs 100 50 1 0.01 (-0.04) 0.01 = true /\
  (exists c : float,
     BSAmericanCallApprox ReferenceMath.reference 50 100 1 (0.01 - -0.04) (- -0.04) 0.01
     = Ok c /\ is_sane c = false) /\
  BSAmericanApprox ReferenceMath.reference 0 100 50 1 0.01 (-0.04) 0.01
  = Err ComputationFault /\
  BSAmericanApprox ReferenceMath.reference 0 100 50 1 0.01 (-0.04) 0.01
  <> BSAmericanCallApprox ReferenceMath.reference 50 100 1 (0.01 - -0.04) (- -0.04) 0.01.
Proof.
  split; [vm_compute; reflexivity |].
  split; [exists nan; split; vm_compute; reflexivity |].
  split; [vm_compute; reflexivity |].
  vm_compute. discriminate.
Qed.

(** C2, amended.  On arguments that pass the five checks, whatever [exp],
    [log] and [pow] compute, the put side of [BSAmericanApprox] calls
    [BSAmericanCallApprox] with price and strike exchanged, rate [r - b],
    carry [- b] and the same volatility, and does one thing more: it asserts
    that the result is finite.  It returns the callee's value when that value
    is finite, fails as the callee fails, and fails with its own assertion
    when the callee returns an infinity or a NaN. *)
Theorem american_put_is_the_checked_transformed_call
  (m : math_h) (S X T r b v : float) :
  valid_common S X T r v = true ->
  BSAmericanApprox m 0 S X T r b v
  = match BSAmericanCallApprox m X S T (r - b) (- b) v with
    | Ok c => if is_sane c then Ok c else Err ComputationFault
    | Err e => Err e
    end.
Proof.
  intros Hc. apply split_valid_common in Hc as (HS & HX & HT & Hr & Hv).
  unfold BSAmericanApprox, assert_valid_price, assert_valid_strike,
    assert_valid_time, assert_valid_interest_rate, assert_valid_volatility.
  rewrite HS, HX, HT, Hr, Hv. cbn [assert_ bind truthy Z.eqb negb].
  destruct (BSAmericanCallApprox m X S T (r - b) (- b) v) as [c | e];
    cbn [bind]; [| reflexivity].
  unfold assert_sane, assert_. now destruct (is_sane c).
Qed.

Lemma american_put_is_the_checked_transformed_call_witness :
  BSAmericanApprox ReferenceMath.reference 0 100 95 0.5 0.1 0.05 0.3
  = match
      BSAmericanCallApprox ReferenceMath.reference 95 100 0.5 (0.1 - 0.05) (- 0.05) 0.3
    with
    | Ok c => if is_sane c then Ok c else Err ComputationFault
    | Err e => Err e
    end.
Proof.
  apply (american_put_is_the_checked_transformed_call
           ReferenceMath.reference 100 95 0.5 0.1 0.05 0.3).
  vm_compute. reflexivity.
Defined.

(** ** Which outcomes the pricers have *)

(** X1. Whatever [exp] and [log] compute, [gbs] refuses its arguments, with
    an [InvalidParameter], exactly when one of the six is outside its range
    or not finite; and a value it returns is finite, since the last statement
    before the return asserts it.  On arguments inside the ranges the
    remaining outcome, a failed [is_sane] assertion, does occur
    ([gbs_overflows_inside_the_ranges]). *)
Theorem gbs_refuses_exactly_the_invalid_arguments
  (m : math_h) (fCall : Z) (S X T r b v : float) :
  ((exists p, gbs m fCall S X T r b v = Err (InvalidParameter p))
   <-> valid_gbs S X T r b v = false) /\
  (forall c, gbs m fCall S X T r b v = Ok c ->
     valid_gbs S X T r b v = true /\ is_sane c = true).
Proof.
  split.
  - apply refusal_decided.
    + intros H. now apply gbs_on_valid_arguments.
    + apply gbs_on_invalid_arguments.
  - intros c Hc. destruct (valid_gbs S X T r b v) eqn:Hv.
    + split; [reflexivity |]. now apply (gbs_on_valid_arguments m fCall S X T r b v).
    + destruct (gbs_on_invalid_arguments m fCall S X T r b v Hv) as [p Hp]. congruence.
Qed.

Lemma gbs_refuses_exactly_the_invalid_arguments_witness :
  valid_gbs 100 100 1 0.05 0.05 100.5 = true /\ is_sane 100 = true.
Proof.
  apply (gbs_refuses_exactly_the_invalid_arguments ReferenceMath.reference 1
           100 100 1 0.05 0.05 100.5).
  vm_compute. reflexivity.
Defined.

(** X3. Whatever [exp], [log] and [pow] compute, [BSAmericanCallApprox]
    refuses its arguments exactly when one of the five it checks is outside
    its range or not finite, or [b >= r] and the cost of carry is, which
    [gbs] then checks.  With [b < r] the cost of carry is never checked. *)
Theorem american_call_refuses_exactly_the_invalid_arguments
  (m : math_h) (S X T r b v : float) :
  (exists p, BSAmericanCallApprox m S X T r b v = Err (InvalidParameter p))
  <-> valid_american_call S X T r b v = false.
Proof.
  apply refusal_decided.
  - apply american_call_on_valid_arguments.
  - apply american_call_on_invalid_arguments.
Qed.

(** X4. Whatever [exp], [log] and [pow] compute, a value [BSAmericanApprox]
    returns is finite, its five checked arguments are inside their ranges,
    and the value is the one its callee returned: [BSAmericanCallApprox] on
    the same arguments for a call, on the transformed ones for a put. *)
Theorem american_results_are_finite
  (m : math_h) (fCall : Z) (S X T r b v : float) (c : float) :
  BSAmericanApprox m fCall S X T r b v = Ok c ->
  is_sane c = true /\ valid_common S X T r v = true /\
  (if truthy fCall then BSAmericanCallApprox m S X T r b v
   else BSAmericanCallApprox m X S T (r - b) (- b) v) = Ok c.
Proof.
  unfold BSAmericanApprox, valid_common, assert_valid_price, assert_valid_strike,
    assert_valid_time, assert_valid_interest_rate, assert_valid_volatility.
  destruct (valid_price S); cbn [andb assert_ bind]; [| discriminate].
  destruct (valid_strike X); cbn [andb assert_ bind]; [| discriminate].
  destruct (valid_time T); cbn [andb assert_ bind]; [| discriminate].
  destruct (valid_interest_rate r); cbn [andb assert_ bind]; [| discriminate].
  destruct (valid_volatility v); cbn [andb assert_ bind]; [| discriminate].
  destruct (if truthy fCall then _ else _) as [res | e]; cbn [bind]; [| discriminate].
  unfold assert_sane, assert_. destruct (is_sane res) eqn:E; cbn [bind];
    [| discriminate].
  intros [= <-]. auto.
Qed.

Lemma american_results_are_finite_witness :
  is_sane 200 = true /\ valid_common 300 100 20 0.04 0.2 = true /\
  BSAmericanCallApprox ReferenceMath.reference 300 100 20 0.04 0 0.2 = Ok 200.
Proof.
  apply (american_results_are_finite ReferenceMath.reference 1
           300 100 20 0.04 0 0.2).
  vm_compute. reflexivity.
Defined.

(** ** Evaluations *)

(** [gbs] on six arguments inside their ranges: [exp ((b - r) * T)] is
    [exp 20000], an infinity, and the assertion on the result fails. *)
Example gbs_overflows_inside_the_ranges :
  valid_gbs 1e12 1e-6 20 0 1000 100.99999 = true /\
  gbs ReferenceMath.reference 1 1e12 1e-6 20 0 1000 100.99999 = Err ComputationFault.
Proof. vm_compute. split; reflexivity. Qed.

(** The whole of [BSAmericanCallApprox] on the arguments on which [Beta]
    rounds to 1: it stops at an [is_sane] assertion. *)
Example american_call_stops_when_Beta_rounds_to_one :
  BSAmericanCallApprox ReferenceMath.reference 100 100 1 1e-20 0 0.25
  = Err ComputationFault.
Proof. vm_compute. reflexivity. Qed.

(** [cnd] in binary64: exactly 1 from [8.3] on and exactly 0 from [-10]
    down, and the value at 0 and at [- 0], whose sum is not 1. *)
Example cnd_saturates_in_binary64 :
  cnd ReferenceMath.reference 8.3 = Ok 1 /\
  cnd ReferenceMath.reference 10 = Ok 1 /\
  cnd ReferenceMath.reference (-10) = Ok 0 /\
  cnd ReferenceMath.reference 0 = Ok 0.50000000052480864 /\
  cnd ReferenceMath.reference (- 0) = Ok 0.50000000052480864.
Proof. vm_compute. repeat split. Qed.

(** Put-call parity of [blackscholes] at [S = X = 100], [T = 1], [r = 0.125],
    [v = 0.5] in binary64: [d2] is exactly 0 and the two prices miss parity
    by more than [1e-9] times the parity value. *)
Example blackscholes_parity_gap_in_binary64 :
  (0.0 + (0.125 + pow2 0.5 / 2.0) * 1) / (0.5 * sqrt 1) - 0.5 * sqrt 1 = 0 /\
  exists c p : float,
    blackscholes ReferenceMath.reference 1 100 100 1 0.125 0.5 = Ok c /\
    blackscholes ReferenceMath.reference 0 100 100 1 0.125 0.5 = Ok p /\
    (1e-9 * abs (100 - 100 * ReferenceMath.exp (- 0.125 * 1))
     <? abs ((c - p) - (100 - 100 * ReferenceMath.exp (- 0.125 * 1)))) = true.
Proof.
  split; [vm_compute; reflexivity |].
  eexists. eexists.
  split; [vm_compute; reflexivity |].
  split; [vm_compute; reflexivity |].
  vm_compute. reflexivity.
Qed.

(** The American call at [S = 1], [X = 100], [T = 1], [r = 0.05], [b = -2],
    [v = 0.5] in binary64: the price returned is [-99], the European price
    is 0. *)
Example american_call_below_european_in_binary64 :
  valid_gbs 1 100 1 0.05 (-2) 0.5 = true /\
  BSAmericanApprox ReferenceMath.reference 1 1 100 1 0.05 (-2) 0.5 = Ok (-99) /\
  gbs ReferenceMath.reference 1 1 100 1 0.05 (-2) 0.5 = Ok 0.
Proof. vm_compute. repeat split. Qed.

(** At the arguments [S = X = 100], [T = 0.5], [r = 0.1], [b = 0.05],
    [v = 0.3], below the trigger price, the American prices are above the
    European ones, call and put. *)
Example american_above_european_at_ordinary_arguments :
  exists ac gc ap gp : float,
    BSAmericanApprox ReferenceMath.reference 1 100 100 0.5 0.1 0.05 0.3 = Ok ac /\
    gbs ReferenceMath.reference 1 100 100 0.5 0.1 0.05 0.3 = Ok gc /\
    BSAmericanApprox ReferenceMath.reference 0 100 100 0.5 0.1 0.05 0.3 = Ok ap /\
    gbs ReferenceMath.reference 0 100 100 0.5 0.1 0.05 0.3 = Ok gp /\
    (gc <? ac) = true /\ (gp <? ap) = true.
Proof.
  do 4 eexists.
  split; [vm_compute; reflexivity |].
  split; [vm_compute; reflexivity |].
  split; [vm_compute; reflexivity |].
  split; [vm_compute; reflexivity |].
  vm_compute. split; reflexivity.
Qed.

End Binary64Program_facts.
